(** * Backup-tape helper scripts: tier classifier, skip-day generator and
    tape-label extractor.

    Shallow embedding of [get_next_tape.py] and [get_skip_days.py].  The
    scripts compute over [datetime.date] values, Python sets and lists of
    dates, and one regular expression; these are modelled first, the
    functions of the scripts after them, and the properties last. *)

From stdpp Require Import base numbers list gmap sets sorting strings.

Local Open Scope Z_scope.
Set Warnings "-clear-no-such-hyp".

(** ** Exceptions and results *)

(** The only exception the modelled code can raise is the [OverflowError]
    of date arithmetic leaving [date.min .. date.max]. *)
Inductive exn := OverflowError.

Inductive result (A : Type) :=
| Ok (a : A)
| Raise (e : exn).
Arguments Ok {A} a.
Arguments Raise {A} e.

#[global] Instance result_ret : MRet result := λ A a, Ok a.
#[global] Instance result_bind : MBind result := λ A B k r,
  match r with
  | Ok a => k a
  | Raise e => Raise e
  end.

(** ** [datetime.date]

    After the pure-Python implementation of the [datetime] module: a date
    holds a year, a month and a day; the proleptic Gregorian ordinal
    ([toordinal]) numbers the days from 0001-01-01 = 1. *)
Module datetime.

Record date := mkdate { year : Z; month : Z; day : Z }.

Definition MINYEAR : Z := 1.
Definition MAXYEAR : Z := 9999.
Definition _MAXORDINAL : Z := 3652059.

(** Index 0 of both tables is the placeholder -1 of the Python lists. *)
Definition _DAYS_IN_MONTH : list Z :=
  [-1; 31; 28; 31; 30; 31; 30; 31; 31; 30; 31; 30; 31].
Definition _DAYS_BEFORE_MONTH : list Z :=
  [-1; 0; 31; 59; 90; 120; 151; 181; 212; 243; 273; 304; 334].

(** [table[i]] for an index that is in range wherever the module uses it. *)
Definition index (table : list Z) (i : Z) : Z :=
  default 0 (table !! Z.to_nat i).

Definition _is_leap (year : Z) : bool :=
  (year mod 4 =? 0) && (negb (year mod 100 =? 0) || (year mod 400 =? 0)).

Definition _days_before_year (year : Z) : Z :=
  let y := year - 1 in
  y * 365 + y / 4 - y / 100 + y / 400.

Definition _days_in_month (year month : Z) : Z :=
  if (month =? 2) && _is_leap year then 29 else index _DAYS_IN_MONTH month.

Definition _days_before_month (year month : Z) : Z :=
  index _DAYS_BEFORE_MONTH month
  + (if (2 <? month) && _is_leap year then 1 else 0).

Definition _ymd2ord (year month day : Z) : Z :=
  _days_before_year year + _days_before_month year month + day.

Definition _DI400Y : Z := 146097.
Definition _DI100Y : Z := 36524.
Definition _DI4Y : Z := 1461.

Definition _ord2ymd (n : Z) : Z * Z * Z :=
  let n := n - 1 in
  let n400 := n / _DI400Y in
  let n := n mod _DI400Y in
  let year := n400 * 400 + 1 in
  let n100 := n / _DI100Y in
  let n := n mod _DI100Y in
  let n4 := n / _DI4Y in
  let n := n mod _DI4Y in
  let n1 := n / 365 in
  let n := n mod 365 in
  let year := year + (n100 * 100 + n4 * 4 + n1) in
  if (n1 =? 4) || (n100 =? 4) then (year - 1, 12, 31)
  else
    let leapyear := (n1 =? 3) && (negb (n4 =? 24) || (n100 =? 3)) in
    let month := Z.shiftr (n + 50) 5 in
    let preceding :=
      index _DAYS_BEFORE_MONTH month
      + (if (2 <? month) && leapyear then 1 else 0) in
    let '(month, preceding) :=
      if n <? preceding
      then (month - 1,
            preceding - (index _DAYS_IN_MONTH (month - 1)
                         + (if (month - 1 =? 2) && leapyear then 1 else 0)))
      else (month, preceding) in
    (year, month, n - preceding + 1).

(** The dates the constructor accepts ([_check_date_fields]). *)
Definition valid (d : date) : Prop :=
  MINYEAR ≤ year d ≤ MAXYEAR ∧ 1 ≤ month d ≤ 12
  ∧ 1 ≤ day d ≤ _days_in_month (year d) (month d).

Definition toordinal (d : date) : Z := _ymd2ord (year d) (month d) (day d).

Definition fromordinal (n : Z) : date :=
  let '(y, m, d) := _ord2ymd n in mkdate y m d.

(** [d + timedelta(days)] *)
Definition add (d : date) (days : Z) : result date :=
  let o := toordinal d + days in
  if (0 <? o) && (o <=? _MAXORDINAL) then Ok (fromordinal o)
  else Raise OverflowError.

(** [d - timedelta(days)] is [d + timedelta(-days)]. *)
Definition sub (d : date) (days : Z) : result date := add d (- days).

(** Monday is 0, Sunday is 6. *)
Definition weekday (d : date) : Z := (toordinal d + 6) mod 7.

(** [_cmp]: dates compare as the tuples (year, month, day). *)
Definition _cmp (x y : date) : comparison :=
  match year x ?= year y with
  | Eq => match month x ?= month y with
          | Eq => day x ?= day y
          | c => c
          end
  | c => c
  end.

Definition le (x y : date) : Prop := _cmp x y ≠ Gt.
Definition lt (x y : date) : Prop := _cmp x y = Lt.
Definition leb (x y : date) : bool :=
  match _cmp x y with Gt => false | _ => true end.

Definition geb (x y : date) : bool :=
  match _cmp x y with Lt => false | _ => true end.

Definition gtb (x y : date) : bool :=
  match _cmp x y with Gt => true | _ => false end.

Definition min : date := mkdate 1 1 1.
Definition max : date := mkdate 9999 12 31.

(** Auxiliary definitions for the proofs about the calendar arithmetic. *)

Definition leap_day (b : bool) : Z := if b then 1 else 0.

(** The month and day that [_ord2ymd] derives from the day of the year. *)
Definition month_day (n : Z) (leapyear : bool) : Z * Z :=
  let month := Z.shiftr (n + 50) 5 in
  let preceding :=
    index _DAYS_BEFORE_MONTH month
    + (if (2 <? month) && leapyear then 1 else 0) in
  let '(month, preceding) :=
    if n <? preceding
    then (month - 1,
          preceding - (index _DAYS_IN_MONTH (month - 1)
                       + (if (month - 1 =? 2) && leapyear then 1 else 0)))
    else (month, preceding) in
  (month, n - preceding + 1).

Definition month_day_ok (leapyear : bool) (n : Z) : bool :=
  let '(m, d) := month_day n leapyear in
  (1 <=? m) && (m <=? 12) && (1 <=? d)
  && (d <=? (if (m =? 2) && leapyear then 29 else index _DAYS_IN_MONTH m))
  && (index _DAYS_BEFORE_MONTH m
      + (if (2 <? m) && leapyear then 1 else 0) + d =? n + 1).

End datetime.

Abbreviation date := datetime.date.

#[global] Instance date_eq_dec : EqDecision date.
Proof. solve_decision. Defined.

#[global] Instance date_countable : Countable date.
Proof.
  refine (inj_countable' (λ d, (datetime.year d, datetime.month d, datetime.day d))
            (λ '(y, m, d), datetime.mkdate y m d) _).
  by intros [].
Defined.

#[global] Instance date_le_dec : RelDecision datetime.le.
Proof. intros x y. unfold datetime.le. apply _. Defined.

(** ** Python strings and the fragment of [re] the scripts use *)

(** A Python [str] is a sequence of Unicode code points. *)
Definition codepoint := N.
Definition str := list codepoint.

(** A [str] literal with ASCII characters only. *)
Definition str_of (s : string) : str :=
  (λ a, Ascii.N_of_ascii a) <$> String.list_ascii_of_string s.

Module re.

(** The parsed forms the pattern of [extract_tape_label] is made of. *)
Inductive item :=
| LITERAL (c : codepoint)
| CATEGORY_DIGIT.

Inductive pattern :=
| Empty
| One (i : item)
| MAX_REPEAT (least : nat) (i : item)      (* i{least,}, greedy *)
| Seq (p q : pattern)
| BRANCH (p q : pattern).                  (* p|q, p tried first *)

(** A run of literal characters. *)
Definition literal (s : str) : pattern :=
  foldr (λ c p, Seq (One (LITERAL c)) p) Empty s.

Section matcher.
(** [\d] in a [str] pattern matches every Unicode decimal digit (category
    Nd).  The table belongs to the interpreter's Unicode database and is a
    parameter here. *)
Variable unicode_decimal : codepoint → bool.

Definition item_matches (i : item) (c : codepoint) : bool :=
  match i with
  | LITERAL c' => bool_decide (c = c')
  | CATEGORY_DIGIT => unicode_decimal c
  end.

(** Greedy repetition with backtracking: take as many characters as
    match, then give them back one at a time until the rest of the
    pattern [k] matches. *)
Fixpoint repeat (i : item) (least : nat) (s : str)
    (k : str → option str) : option str :=
  let stop := if least is O then k s else None in
  match s with
  | c :: s' =>
      if item_matches i c then
        match repeat i (pred least) s' k with
        | Some rest => Some rest
        | None => stop
        end
      else stop
  | [] => stop
  end.

(** [matches p s k]: match [p] at the start of [s], then [k] on what
    follows; the result is what is left of [s] after the whole match. *)
Fixpoint matches (p : pattern) (s : str) (k : str → option str) : option str :=
  match p with
  | Empty => k s
  | One i =>
      match s with
      | c :: s' => if item_matches i c then k s' else None
      | [] => None
      end
  | MAX_REPEAT least i => repeat i least s k
  | Seq p q => matches p s (λ s', matches q s' k)
  | BRANCH p q =>
      match matches p s k with
      | Some rest => Some rest
      | None => matches q s k
      end
  end.

(** [re.search(p, s)]: the match at the leftmost position that has one;
    the value is the matched text, which is [m.group(1)] when the whole
    pattern is one group. *)
Fixpoint search (p : pattern) (s : str) : option str :=
  match matches p s Some with
  | Some rest => Some (take (length s - length rest)%nat s)
  | None =>
      match s with
      | [] => None
      | _ :: s' => search p s'
      end
  end.
End matcher.
End re.

(** ** get_next_tape.py *)
Module get_next_tape.

Definition is_public_holiday (today : date) (holidays : list date) : bool :=
  bool_decide (today ∈ holidays).

(** The pool is the string the function returns, [None] when no backup
    runs; the message printed on that path is not modelled. *)
Definition calculate_backup_pool (today : date) (holidays : list date)
    : result (option string) :=
  backup_day ← datetime.add today 1;
  if (datetime.weekday backup_day =? 6) || is_public_holiday backup_day holidays
  then Ok None
  else if datetime.weekday backup_day =? 5 then
    if (datetime.day backup_day <=? 7)
       && bool_decide (datetime.month backup_day ∈ [2; 8])
    then Ok (Some "Yearly"%string)
    else if datetime.day backup_day <=? 7 then Ok (Some "Monthly"%string)
    else Ok (Some "Weekly"%string)
  else Ok (Some "Daily"%string).

(** The tier the classifier is to give the backup day [backup_day]. *)
Definition tier_of (backup_day : date) (holidays : list date)
    (outcome : option string) : Prop :=
  let no_backup := datetime.weekday backup_day = 6 ∨ backup_day ∈ holidays in
  let saturday := datetime.weekday backup_day = 5 in
  let first_week := datetime.day backup_day ≤ 7 in
  let feb_or_aug :=
    datetime.month backup_day = 2 ∨ datetime.month backup_day = 8 in
  (no_backup → outcome = None)
  ∧ (¬ no_backup → saturday → first_week → feb_or_aug →
     outcome = Some "Yearly"%string)
  ∧ (¬ no_backup → saturday → first_week → ¬ feb_or_aug →
     outcome = Some "Monthly"%string)
  ∧ (¬ no_backup → saturday → ¬ first_week → outcome = Some "Weekly"%string)
  ∧ (¬ no_backup → ¬ saturday → outcome = Some "Daily"%string).

(** The classifier returns, for [today], the tier of the day after. *)
Definition classifies (today : date) (holidays : list date) : Prop :=
  ∃ backup_day outcome,
    datetime.add today 1 = Ok backup_day
    ∧ calculate_backup_pool today holidays = Ok outcome
    ∧ tier_of backup_day holidays outcome
    ∧ ∀ outcome', tier_of backup_day holidays outcome' → outcome' = outcome.

(** The classifier on [d] with no holidays: [None] exactly before a Sunday,
    a Saturday tier before a Saturday, and "Daily" otherwise. *)
Definition classifies_without_holidays (d : date) : Prop :=
  ∃ backup_day outcome,
    datetime.add d 1 = Ok backup_day
    ∧ calculate_backup_pool d [] = Ok outcome
    ∧ (outcome = None ↔ datetime.weekday backup_day = 6)
    ∧ (datetime.weekday backup_day = 5 →
       outcome ∈ [Some "Weekly"; Some "Monthly"; Some "Yearly"]%string)
    ∧ (datetime.weekday backup_day ≠ 6 → datetime.weekday backup_day ≠ 5 →
       outcome = Some "Daily"%string).

(** [Daily\d+] and the like: a tier name and one digit or more. *)
Definition tier (name : string) : re.pattern :=
  re.Seq (re.literal (str_of name)) (re.MAX_REPEAT 1 re.CATEGORY_DIGIT).

(** [(Daily\d+|Weekly\d+|Monthly\d+|Yearly\d+)] *)
Definition tape_label_pattern : re.pattern :=
  re.BRANCH (tier "Daily")
    (re.BRANCH (tier "Weekly") (re.BRANCH (tier "Monthly") (tier "Yearly"))).

Definition extract_tape_label (unicode_decimal : codepoint → bool)
    (tape_info : str) : option str :=
  match re.search unicode_decimal tape_label_pattern tape_info with
  | Some group1 => Some group1
  | None => None
  end.

(** The labels the extractor is to find. *)
Definition tier_names : list str :=
  str_of <$> ["Daily"; "Weekly"; "Monthly"; "Yearly"]%string.

Section labels.
Variable unicode_decimal : codepoint → bool.

Definition digit (c : codepoint) : Prop := unicode_decimal c = true.

(** [rest] does not go on with a digit. *)
Definition no_digit_ahead (rest : str) : Prop :=
  match rest with
  | c :: _ => ¬ digit c
  | [] => True
  end.

(** [text] is [label] and then [rest], where [label] is a tier name with
    all the digits that follow it, one at least. *)
Definition label_and_rest (text label rest : str) : Prop :=
  ∃ name digits,
    text = label ++ rest ∧ label = name ++ digits ∧ name ∈ tier_names
    ∧ digits ≠ [] ∧ Forall digit digits ∧ no_digit_ahead rest.

(** [text] starts with a tier name and a digit. *)
Definition label_starts (text : str) : Prop :=
  ∃ name c rest, text = name ++ c :: rest ∧ name ∈ tier_names ∧ digit c.

(** [label] is the leftmost label of [line]. *)
Definition first_label (line label : str) : Prop :=
  ∃ before rest,
    line = before ++ label ++ rest
    ∧ label_and_rest (label ++ rest) label rest
    ∧ ∀ before' text, line = before' ++ text →
                      (length before' < length before)%nat →
                      ¬ label_starts text.

(** No label anywhere in [line]. *)
Definition no_label (line : str) : Prop :=
  ∀ before text, line = before ++ text → ¬ label_starts text.

(** The pattern tried at the start of [text]: what is left of [text]
    after the match. *)
Definition here (text : str) : option str :=
  re.matches unicode_decimal tape_label_pattern text Some.

(** No tier name anywhere in [line]. *)
Definition no_tier_name (line : str) : Prop :=
  ∀ before name rest, name ∈ tier_names → line ≠ before ++ name ++ rest.
End labels.

(** A table with the ASCII digits only, as [re.ASCII] would give. *)
Definition ascii_decimal (c : codepoint) : bool :=
  ((48 <=? c) && (c <=? 57))%N.

(** The two answers of the classifier for the first Saturday of a month. *)
Definition monthly_or_yearly (answer : result (option string)) : Prop :=
  answer = Ok (Some "Monthly"%string) ∨ answer = Ok (Some "Yearly"%string).

(** What [main] does to the outside, in the order it does it: the query
    of [get_bacula_next_tape] to the catalog and the mail of [send_email].
    The messages it prints are left out. *)
Inductive action :=
| Query (pool : string)
| SendEmail (subject message_body : str).

(** [main] from the parsed arguments on.  The collaborators are parameters:
    [holidays] is what [get_public_holidays] read, [get_bacula_next_tape]
    gives the stripped answer of the catalog for a pool, [None] when the
    command fails, and [formatted_date] is what [get_formatted_date]
    returns.  An [if] on a string or [None] takes the empty string and
    [None] as false. *)
Definition main (unicode_decimal : codepoint → bool) (today : date)
    (holidays : list date) (get_bacula_next_tape : string → option str)
    (formatted_date : str) : result (list action) :=
  pool ← calculate_backup_pool today holidays;
  match pool with
  | None | Some EmptyString => Ok []
  | Some pool =>
      match get_bacula_next_tape pool with
      | Some (c :: cs) =>
          let tape_info := c :: cs in
          let tape_label := extract_tape_label unicode_decimal tape_info in
          let subject :=
            match tape_label with
            | Some (l :: ls) =>
                str_of "Bacula next tape " ++ (l :: ls) ++ str_of " ("
                ++ formatted_date ++ str_of ")"
            | _ => str_of "Bacula next tape (" ++ formatted_date ++ str_of ")"
            end in
          let message_body :=
            str_of "The next tape for pool " ++ str_of pool ++ str_of ": "
            ++ tape_info in
          Ok [Query pool; SendEmail subject message_body]
      | _ => Ok [Query pool]
      end
  end.

End get_next_tape.

(** ** get_skip_days.py *)
Module get_skip_days.

(** The [while] loop of [main].  [fuel] bounds the number of iterations;
    [None] is the loop cut short by it. *)
Fixpoint scan (fuel : nat) (current_date end_date : date)
    (source_holidays valid_dates : gset date) : option (result (gset date)) :=
  if datetime.leb current_date end_date then
    match fuel with
    | O => None
    | S fuel =>
        match datetime.sub current_date 1 with
        | Raise e => Some (Raise e)
        | Ok previous_day =>
            let valid_dates :=
              if datetime.weekday current_date <? 5 then
                if bool_decide (previous_day ∈ source_holidays)
                then {[current_date]} ∪ valid_dates
                else valid_dates
              else valid_dates in
            match datetime.add current_date 1 with
            | Raise e => Some (Raise e)
            | Ok current_date =>
                scan fuel current_date end_date source_holidays valid_dates
            end
        end
    end
  else Some (Ok valid_dates).

(** The [for] loop of [main] over the holidays, in the order the set
    yields them. *)
Definition friday_holidays (start_date end_date : date)
    (source_holidays valid_dates : gset date) : gset date :=
  foldl (λ valid_dates holiday,
           if datetime.weekday holiday =? 4 then
             if datetime.geb holiday start_date && datetime.leb holiday end_date
             then {[holiday]} ∪ valid_dates
             else valid_dates
           else valid_dates)
    valid_dates (elements source_holidays).

(** [sorted(valid_dates)] *)
Definition sorted (valid_dates : gset date) : list date :=
  merge_sort datetime.le (elements valid_dates).

(** [main] from the resolved date range and holiday set on: the dates it
    writes to the output file, in the order of the lines.  With no date to
    write it leaves the file alone and the list is empty.  The loop cannot
    take more iterations than there are days from [start_date] to
    [end_date], which is the fuel it gets. *)
Definition main (start_date end_date : date) (source_holidays : gset date)
    : option (result (list date)) :=
  let days := datetime.toordinal end_date - datetime.toordinal start_date in
  match scan (S (Z.to_nat days)) start_date end_date source_holidays ∅ with
  | None => None
  | Some (Raise e) => Some (Raise e)
  | Some (Ok valid_dates) =>
      Some (Ok (sorted (friday_holidays start_date end_date
                          source_holidays valid_dates)))
  end.

(** Rule A: a day from Monday to Friday, in the range, whose previous day is
    a holiday. *)
Definition rule_A (start_date end_date : date) (holidays : gset date)
    (d : date) : Prop :=
  datetime.valid d
  ∧ datetime.le start_date d ∧ datetime.le d end_date
  ∧ 0 ≤ datetime.weekday d ≤ 4
  ∧ ∃ previous_day, datetime.sub d 1 = Ok previous_day ∧ previous_day ∈ holidays.

(** Rule B: a holiday in the range that is a Friday. *)
Definition rule_B (start_date end_date : date) (holidays : gset date)
    (h : date) : Prop :=
  h ∈ holidays ∧ datetime.weekday h = 4
  ∧ datetime.le start_date h ∧ datetime.le h end_date.

(** [days] is the union of the two rules, ascending and without repeats. *)
Definition skip_days (start_date end_date : date) (holidays : gset date)
    (days : list date) : Prop :=
  Sorted datetime.le days ∧ NoDup days
  ∧ ∀ d, d ∈ days ↔ rule_A start_date end_date holidays d
                    ∨ rule_B start_date end_date holidays d.

(** [main] returns the skip days of the range. *)
Definition generates (start_date end_date : date) (holidays : gset date)
    : Prop :=
  ∃ days, main start_date end_date holidays = Some (Ok days)
          ∧ skip_days start_date end_date holidays days.

(** The holiday a skip day [d] comes from: [d] itself if it is a holiday
    on a Friday, and else the day before [d]. *)
Definition holiday_of (holidays : gset date) (d : date) : date :=
  if decide (d ∈ holidays ∧ datetime.weekday d = 4) then d
  else match datetime.sub d 1 with
       | Ok previous_day => previous_day
       | Raise _ => d
       end.

(** The value of DTSTART: a date, or a datetime, which is a date and a time
    of day. *)
Inductive dtstart :=
| DATE (d : date)
| DATETIME (d : date) (seconds : Z).

(** A component of the calendar as [fetch_public_holidays] reads it: its
    name, and its DTSTART, which every VEVENT is taken to have. *)
Record component := { component_name : string; DTSTART : dtstart }.

(** The date of an event; of a datetime, its [date()]. *)
Definition event_date (c : component) : date :=
  match DTSTART c with
  | DATE d => d
  | DATETIME d _ => d
  end.

(** [fetch_public_holidays].  [response] is [None] when the download does
    not answer 200, and else the components [calendar.walk()] yields. *)
Definition fetch_public_holidays (response : option (list component))
    (today : date) : gset date :=
  match response with
  | Some walk =>
      foldl (λ holidays c,
               if String.eqb (component_name c) "VEVENT" then
                 if datetime.geb (event_date c) today
                 then {[event_date c]} ∪ holidays
                 else holidays
               else holidays)
        ∅ walk
  | None => ∅
  end.

(** [max(source_holidays)], for a set that is not empty: the first date
    that no later one exceeds. *)
Definition max_date (source_holidays : gset date) : option date :=
  match elements source_holidays with
  | [] => None
  | d :: ds =>
      Some (foldl (λ m x, if datetime.gtb x m then x else m) d ds)
  end.

(** The date range [main] sets.  [start_date] and [end_date] are the two
    arguments already parsed, [None] for one that is not given. *)
Definition date_range (today : date) (start_date end_date : option date)
    (source_holidays : gset date) : result (date * date) :=
  let start_date := default today start_date in
  match end_date with
  | Some end_date => Ok (start_date, end_date)
  | None =>
      match max_date source_holidays with
      | Some end_date => Ok (start_date, end_date)
      | None =>
          end_date ← datetime.add start_date 365; Ok (start_date, end_date)
      end
  end.

(** The whole of [main]: the holidays from the two sources, the range, the
    two loops and the output.  The result is the lines written to the
    output file, as dates, and [None] when the file is not written.
    [custom_holidays] is what [load_custom_holidays] returns, and [today]
    what [date.today()] returns, the same day in [fetch_public_holidays]
    and in [main]. *)
Definition main_from_sources (response : option (list component))
    (custom_holidays : gset date) (today : date)
    (start_date end_date : option date)
    : option (result (option (list date))) :=
  let public_holidays := fetch_public_holidays response today in
  let source_holidays := public_holidays ∪ custom_holidays in
  match date_range today start_date end_date source_holidays with
  | Raise e => Some (Raise e)
  | Ok (start_date, end_date) =>
      let days := datetime.toordinal end_date - datetime.toordinal start_date in
      match scan (S (Z.to_nat days)) start_date end_date source_holidays ∅ with
      | None => None
      | Some (Raise e) => Some (Raise e)
      | Some (Ok valid_dates) =>
          let valid_dates :=
            friday_holidays start_date end_date source_holidays valid_dates in
          if decide (valid_dates = ∅) then Some (Ok None)
          else Some (Ok (Some (sorted valid_dates)))
      end
  end.

End get_skip_days.

(** * Properties *)

(** ** The calendar arithmetic of [datetime] *)
Module datetime_facts.
Import datetime.

Lemma month_day_table leapyear :
  forallb (month_day_ok leapyear) (seqZ 0 365) = true.
Proof. destruct leapyear; vm_compute; reflexivity. Qed.

Lemma month_day_spec leapyear n :
  0 ≤ n < 365 → month_day_ok leapyear n = true.
Proof.
  intros Hn. pose proof (month_day_table leapyear) as Ht.
  rewrite forallb_forall in Ht. apply Ht, list_elem_of_In, elem_of_seqZ. lia.
Qed.

Lemma days_before_year_succ y :
  _days_before_year (y + 1) = _days_before_year y + 365 + leap_day (_is_leap y).
Proof.
  unfold _days_before_year, _is_leap, leap_day.
  replace (y + 1 - 1) with y by lia.
  repeat match goal with |- context [?a =? ?b] => destruct (Z.eqb_spec a b) end;
    simpl; Z.div_mod_to_equations; lia.
Qed.

Lemma days_before_year_mono y1 y2 :
  y1 ≤ y2 → _days_before_year y1 ≤ _days_before_year y2.
Proof. unfold _days_before_year. intros. Z.div_mod_to_equations; lia. Qed.

Lemma month_cases m :
  1 ≤ m ≤ 12 →
  m = 1 ∨ m = 2 ∨ m = 3 ∨ m = 4 ∨ m = 5 ∨ m = 6 ∨ m = 7 ∨ m = 8 ∨ m = 9
  ∨ m = 10 ∨ m = 11 ∨ m = 12.
Proof. lia. Qed.

Ltac eval_tables :=
  repeat match goal with
    | |- context [index ?t ?k] =>
        let v := eval vm_compute in (index t k) in
        change (index t k) with v
    | H : context [index ?t ?k] |- _ =>
        let v := eval vm_compute in (index t k) in
        change (index t k) with v in H
    end.

Ltac each_month m H :=
  let C := fresh in
  pose proof (month_cases m H) as C;
  repeat (destruct C as [C | C]; [subst m | ]); [.. | subst m].

(** Within a year the ordinal is ordered like (month, day). *)
Lemma year_day_cmp y m1 d1 m2 d2 :
  1 ≤ m1 ≤ 12 → 1 ≤ d1 ≤ _days_in_month y m1 →
  1 ≤ m2 ≤ 12 → 1 ≤ d2 ≤ _days_in_month y m2 →
  (_days_before_month y m1 + d1 ?= _days_before_month y m2 + d2)
  = match m1 ?= m2 with Eq => d1 ?= d2 | c => c end.
Proof.
  unfold _days_in_month, _days_before_month. intros Hm1 Hd1 Hm2 Hd2.
  destruct (_is_leap y); each_month m1 Hm1; each_month m2 Hm2;
    cbn in *; eval_tables;
    first [ reflexivity | by apply Z.compare_lt_iff; lia
                    | by apply Z.compare_gt_iff; lia
                    | by apply Z.add_compare_mono_l ].
Qed.

Lemma year_day_bounds y m d :
  1 ≤ m ≤ 12 → 1 ≤ d ≤ _days_in_month y m →
  1 ≤ _days_before_month y m + d ≤ 365 + leap_day (_is_leap y).
Proof.
  unfold _days_in_month, _days_before_month, leap_day. intros Hm Hd.
  destruct (_is_leap y); each_month m Hm;
    cbn in *; eval_tables; lia.
Qed.

Lemma days_before_year_nonneg y : 1 ≤ y → 0 ≤ _days_before_year y.
Proof. unfold _days_before_year. intros. Z.div_mod_to_equations; lia. Qed.

Lemma toordinal_bounds d : valid d → 1 ≤ toordinal d ≤ _MAXORDINAL.
Proof.
  intros (Hy & Hm & Hd). unfold toordinal, _ymd2ord, MINYEAR, MAXYEAR in *.
  pose proof (year_day_bounds _ _ _ Hm Hd).
  pose proof (days_before_year_nonneg (year d)).
  pose proof (days_before_year_succ (year d)).
  pose proof (days_before_year_mono (year d + 1) 10000).
  change (_days_before_year 10000) with _MAXORDINAL in *. lia.
Qed.

(** The ordinal orders valid dates as [_cmp] does. *)
Lemma toordinal_cmp x y :
  valid x → valid y → (toordinal x ?= toordinal y) = _cmp x y.
Proof.
  intros (Hyx & Hmx & Hdx) (Hyy & Hmy & Hdy). unfold toordinal, _ymd2ord, _cmp.
  pose proof (year_day_bounds _ _ _ Hmx Hdx).
  pose proof (year_day_bounds _ _ _ Hmy Hdy).
  destruct (Z.compare_spec (year x) (year y)) as [Heq | Hlt | Hgt].
  - rewrite Heq in *. rewrite <- !Z.add_assoc, Z.add_compare_mono_l.
    by apply year_day_cmp.
  - apply Z.compare_lt_iff.
    pose proof (days_before_year_succ (year x)).
    pose proof (days_before_year_mono (year x + 1) (year y)). lia.
  - apply Z.compare_gt_iff.
    pose proof (days_before_year_succ (year y)).
    pose proof (days_before_year_mono (year y + 1) (year x)). lia.
Qed.

Lemma cmp_eq x y : _cmp x y = Eq → x = y.
Proof.
  destruct x, y. unfold _cmp. cbn.
  repeat match goal with
    | |- context [?a ?= ?b] => destruct (Z.compare_spec a b); try done
    end.
  intros _. congruence.
Qed.

Lemma toordinal_inj x y : valid x → valid y → toordinal x = toordinal y → x = y.
Proof.
  intros Hx Hy Heq. apply cmp_eq. rewrite <- toordinal_cmp by done.
  by apply Z.compare_eq_iff.
Qed.

(** [_ord2ymd] yields a valid date, the one with the given ordinal. *)
Lemma ord2ymd_spec n :
  1 ≤ n ≤ _MAXORDINAL → valid (fromordinal n) ∧ toordinal (fromordinal n) = n.
Proof.
  intros Hn. unfold fromordinal, _ord2ymd, _DI400Y, _DI100Y, _DI4Y, _MAXORDINAL in *.
  cbv zeta.
  pose proof (Z.div_mod (n - 1) 146097 ltac:(lia)) as E400.
  pose proof (Z.mod_pos_bound (n - 1) 146097 ltac:(lia)) as B400.
  set (n400 := (n - 1) / 146097) in *. set (r400 := (n - 1) mod 146097) in *.
  pose proof (Z.div_mod r400 36524 ltac:(lia)) as E100.
  pose proof (Z.mod_pos_bound r400 36524 ltac:(lia)) as B100.
  set (n100 := r400 / 36524) in *. set (r100 := r400 mod 36524) in *.
  pose proof (Z.div_mod r100 1461 ltac:(lia)) as E4.
  pose proof (Z.mod_pos_bound r100 1461 ltac:(lia)) as B4.
  set (n4 := r100 / 1461) in *. set (r4 := r100 mod 1461) in *.
  pose proof (Z.div_mod r4 365 ltac:(lia)) as E1.
  pose proof (Z.mod_pos_bound r4 365 ltac:(lia)) as B1.
  set (n1 := r4 / 365) in *. set (r1 := r4 mod 365) in *.
  clearbody n400 r400 n100 r100 n4 r4 n1 r1.
  assert (0 ≤ n400 ≤ 24 ∧ 0 ≤ n100 ≤ 4 ∧ 0 ≤ n4 ≤ 24 ∧ 0 ≤ n1 ≤ 4)
    as (? & ? & ? & ?) by lia.
  destruct ((n1 =? 4) || (n100 =? 4)) eqn:Hedge.
  - (* the last day of a leap year *)
    set (Y := n400 * 400 + 1 + (n100 * 100 + n4 * 4 + n1) - 1).
    assert (_is_leap Y = true) as Hleap.
    { unfold _is_leap, Y. apply orb_true_iff in Hedge as [?%Z.eqb_eq | ?%Z.eqb_eq];
        repeat match goal with |- context [?a =? ?b] => destruct (Z.eqb_spec a b) end;
        try reflexivity; exfalso; Z.div_mod_to_equations; lia. }
    pose proof (days_before_year_succ Y) as Hsucc. rewrite Hleap in Hsucc.
    assert (_days_before_year (Y + 1) = n) as Hdby.
    { unfold _days_before_year, Y.
      apply orb_true_iff in Hedge as [?%Z.eqb_eq | ?%Z.eqb_eq];
        Z.div_mod_to_equations; lia. }
    split.
    + unfold valid, _days_in_month, MINYEAR, MAXYEAR; cbn. fold Y.
      split; [| done].
      apply orb_true_iff in Hedge as [?%Z.eqb_eq | ?%Z.eqb_eq]; unfold Y; lia.
    + unfold toordinal, _ymd2ord, _days_before_month; cbn. fold Y.
      rewrite Hleap. eval_tables. cbn in *. lia.
  - apply orb_false_iff in Hedge as [Hn1%Z.eqb_neq Hn100%Z.eqb_neq].
    set (leapyear := (n1 =? 3) && (negb (n4 =? 24) || (n100 =? 3))).
    set (Y := n400 * 400 + 1 + (n100 * 100 + n4 * 4 + n1)).
    assert (_is_leap Y = leapyear) as Hleap.
    { unfold _is_leap, Y, leapyear.
      repeat match goal with |- context [?a =? ?b] => destruct (Z.eqb_spec a b) end;
        try reflexivity; exfalso; Z.div_mod_to_equations; lia. }
    assert (_days_before_year Y = n - 1 - r1) as Hdby.
    { unfold _days_before_year, Y. Z.div_mod_to_equations; lia. }
    pose proof (month_day_spec leapyear r1 ltac:(lia)) as Hok.
    unfold month_day_ok, month_day in Hok. cbv zeta in Hok.
    match goal with
    | |- context [if ?c then (_, _) else _] => destruct c
    end; repeat (apply andb_true_iff in Hok as [Hok ?]).
    all: cbv beta iota; split;
      [ unfold valid, _days_in_month, MINYEAR, MAXYEAR; cbn; rewrite Hleap;
        split; [unfold Y; lia | lia]
      | unfold toordinal, _ymd2ord, _days_before_month; cbn;
        rewrite Hleap, Hdby; lia ].
Qed.

Lemma fromordinal_toordinal d : valid d → fromordinal (toordinal d) = d.
Proof.
  intros Hd. pose proof (toordinal_bounds d Hd) as Hb.
  destruct (ord2ymd_spec _ Hb). by apply toordinal_inj.
Qed.

Lemma fromordinal_valid n : 1 ≤ n ≤ _MAXORDINAL → valid (fromordinal n).
Proof. intros Hn. by destruct (ord2ymd_spec n Hn). Qed.

Lemma toordinal_fromordinal n :
  1 ≤ n ≤ _MAXORDINAL → toordinal (fromordinal n) = n.
Proof. intros Hn. by destruct (ord2ymd_spec n Hn). Qed.

(** *** Date arithmetic *)

Lemma add_Ok d k d' :
  add d k = Ok d' ↔
  1 ≤ toordinal d + k ≤ _MAXORDINAL ∧ d' = fromordinal (toordinal d + k).
Proof.
  unfold add.
  destruct (Z.ltb_spec 0 (toordinal d + k)), (Z.leb_spec (toordinal d + k) _MAXORDINAL);
    cbn; (split; intros Hx;
          first [ by injection Hx as <-; split; [lia | done]
                | discriminate Hx
                | by destruct Hx as [? ->]
                | destruct Hx; lia ]).
Qed.

Lemma add_Raise d k e :
  add d k = Raise e ↔ ¬ 1 ≤ toordinal d + k ≤ _MAXORDINAL.
Proof.
  unfold add. destruct e.
  destruct (Z.ltb_spec 0 (toordinal d + k)), (Z.leb_spec (toordinal d + k) _MAXORDINAL);
    cbn; split; try done; try lia.
Qed.

(** What [add] returns is a valid date, [days] days on. *)
Lemma add_Ok_valid d k d' :
  add d k = Ok d' → valid d' ∧ toordinal d' = toordinal d + k.
Proof.
  intros [Hb ->]%add_Ok. by apply ord2ymd_spec.
Qed.

Lemma add_in_range d k :
  1 ≤ toordinal d + k ≤ _MAXORDINAL →
  ∃ d', add d k = Ok d' ∧ valid d' ∧ toordinal d' = toordinal d + k.
Proof.
  intros Hb. exists (fromordinal (toordinal d + k)).
  assert (add d k = Ok (fromordinal (toordinal d + k))) as Hadd by by apply add_Ok.
  split; [done |]. by apply add_Ok_valid.
Qed.

Lemma sub_Ok_valid d k d' :
  sub d k = Ok d' → valid d' ∧ toordinal d' = toordinal d - k.
Proof. unfold sub. intros [? ?]%add_Ok_valid. split; [done | lia]. Qed.

Lemma sub_in_range d k :
  1 ≤ toordinal d - k ≤ _MAXORDINAL →
  ∃ d', sub d k = Ok d' ∧ valid d' ∧ toordinal d' = toordinal d - k.
Proof.
  intros Hb. destruct (add_in_range d (- k)) as (d' & ? & ? & ?); [lia |].
  exists d'. split_and!; [done | done | lia].
Qed.

Lemma sub_Raise d k e :
  sub d k = Raise e ↔ ¬ 1 ≤ toordinal d - k ≤ _MAXORDINAL.
Proof. unfold sub. rewrite add_Raise. lia. Qed.

Lemma toordinal_min : toordinal min = 1.
Proof. reflexivity. Qed.

Lemma toordinal_max : toordinal max = _MAXORDINAL.
Proof. reflexivity. Qed.

Lemma valid_min : valid min.
Proof. unfold valid, MINYEAR, MAXYEAR; cbn. eval_tables. lia. Qed.

Lemma valid_max : valid max.
Proof. unfold valid, MINYEAR, MAXYEAR; cbn. eval_tables. lia. Qed.

Lemma before_max d : valid d → d ≠ max ↔ toordinal d < _MAXORDINAL.
Proof.
  intros Hd. pose proof (toordinal_bounds d Hd). split.
  - intros Hne. destruct (decide (toordinal d = _MAXORDINAL)) as [Heq | ]; [| lia].
    destruct Hne. apply toordinal_inj; [done | apply valid_max | by rewrite toordinal_max].
  - intros Hlt ->. rewrite toordinal_max in Hlt. lia.
Qed.

Lemma after_min d : valid d → d ≠ min ↔ 1 < toordinal d.
Proof.
  intros Hd. pose proof (toordinal_bounds d Hd). split.
  - intros Hne. destruct (decide (toordinal d = 1)) as [Heq | ]; [| lia].
    destruct Hne. apply toordinal_inj; [done | apply valid_min | by rewrite toordinal_min].
  - intros Hlt ->. rewrite toordinal_min in Hlt. lia.
Qed.

(** *** Comparisons *)

Lemma leb_le x y : leb x y = true ↔ le x y.
Proof. unfold leb, le. destruct (_cmp x y); naive_solver. Qed.

Lemma geb_le x y : geb x y = true ↔ le y x.
Proof.
  unfold geb, le, _cmp.
  rewrite (Z.compare_antisym (year x)), (Z.compare_antisym (month x)),
    (Z.compare_antisym (day x)).
  destruct (year x ?= year y), (month x ?= month y), (day x ?= day y);
    cbn; naive_solver.
Qed.

Lemma le_ordinal x y : valid x → valid y → le x y ↔ toordinal x ≤ toordinal y.
Proof.
  intros Hx Hy. unfold le. rewrite <- toordinal_cmp by done.
  destruct (Z.compare_spec (toordinal x) (toordinal y)); split; (done || lia).
Qed.

Lemma lt_ordinal x y : valid x → valid y → lt x y ↔ toordinal x < toordinal y.
Proof.
  intros Hx Hy. unfold lt. rewrite <- toordinal_cmp by done.
  apply Z.compare_lt_iff.
Qed.

Lemma cmp_antisym x y : _cmp y x = CompOpp (_cmp x y).
Proof.
  unfold _cmp.
  rewrite (Z.compare_antisym (year x)), (Z.compare_antisym (month x)),
    (Z.compare_antisym (day x)).
  by destruct (year x ?= year y), (month x ?= month y), (day x ?= day y).
Qed.

Lemma lt_not_le x y : lt x y ↔ ¬ le y x.
Proof.
  unfold lt, le. rewrite (cmp_antisym x y).
  destruct (_cmp x y); cbn; naive_solver.
Qed.

Lemma le_trans x y z : le x y → le y z → le x z.
Proof.
  unfold le, _cmp. destruct x, y, z; cbn.
  repeat match goal with
    | |- context [?a ?= ?b] => destruct (Z.compare_spec a b)
    end; try done; lia.
Qed.

#[global] Instance le_transitive : Transitive le := le_trans.

#[global] Instance le_total : Total le.
Proof.
  intros x y. unfold le. rewrite (cmp_antisym x y).
  destruct (_cmp x y); cbn; naive_solver.
Qed.

Lemma weekday_range d : 0 ≤ weekday d ≤ 6.
Proof. unfold weekday. pose proof (Z.mod_pos_bound (toordinal d + 6) 7). lia. Qed.

End datetime_facts.

(** ** The tier classifier *)
Module get_next_tape_facts.
Import datetime datetime_facts get_next_tape.

Lemma tomorrow today :
  valid today → today ≠ max →
  ∃ backup_day, add today 1 = Ok backup_day ∧ valid backup_day
                ∧ toordinal backup_day = toordinal today + 1.
Proof.
  intros Hv Hne. apply add_in_range.
  pose proof (toordinal_bounds today Hv). apply before_max in Hne; [lia | done].
Qed.

Lemma no_tomorrow : add max 1 = Raise OverflowError.
Proof. reflexivity. Qed.

Lemma calculate_backup_pool_raises today holidays e :
  add today 1 = Raise e → calculate_backup_pool today holidays = Raise e.
Proof. intros Hadd. unfold calculate_backup_pool. by rewrite Hadd. Qed.

Ltac classifier_cases :=
  repeat match goal with
    | |- context [?a =? ?b] => destruct (Z.eqb_spec a b)
    | |- context [?a <=? ?b] => destruct (Z.leb_spec a b)
    | |- context [is_public_holiday ?d ?H] =>
        unfold is_public_holiday; destruct (bool_decide_reflect (d ∈ H))
    | |- context [bool_decide (?m ∈ [2; 8])] =>
        destruct (bool_decide_reflect (m ∈ [2; 8]))
    end; cbn [orb andb].

Lemma feb_or_aug m : m ∈ [2; 8] ↔ m = 2 ∨ m = 8.
Proof. rewrite !elem_of_cons, elem_of_nil. tauto. Qed.

(** The classifier follows the tier rule on the day [add] returns. *)
Lemma calculate_backup_pool_tier today holidays backup_day :
  add today 1 = Ok backup_day →
  ∃ outcome, calculate_backup_pool today holidays = Ok outcome
             ∧ tier_of backup_day holidays outcome.
Proof.
  intros Hadd. unfold calculate_backup_pool, tier_of. rewrite Hadd. cbn.
  classifier_cases; (eexists; split; [reflexivity |]);
    rewrite ?feb_or_aug in *; split_and!; intros; try done;
    intuition lia.
Qed.

(** The tier rule leaves no choice. *)
Lemma tier_of_unique backup_day holidays o1 o2 :
  tier_of backup_day holidays o1 → tier_of backup_day holidays o2 → o1 = o2.
Proof.
  unfold tier_of. intros (N1 & Y1 & M1 & W1 & D1) (N2 & Y2 & M2 & W2 & D2).
  destruct (decide (weekday backup_day = 6 ∨ backup_day ∈ holidays)) as [? | Hno].
  { by rewrite N1, N2. }
  destruct (decide (weekday backup_day = 5)) as [Hsat | ?];
    [| by rewrite D1, D2].
  destruct (decide (day backup_day ≤ 7)) as [Hfirst | ?];
    [| by rewrite W1, W2].
  destruct (decide (month backup_day = 2 ∨ month backup_day = 8)).
  - by rewrite Y1, Y2.
  - by rewrite M1, M2.
Qed.

Lemma classifies_tomorrow today holidays backup_day :
  add today 1 = Ok backup_day → classifies today holidays.
Proof.
  intros Hadd.
  destruct (calculate_backup_pool_tier today holidays _ Hadd) as (o & Hcall & Ht).
  exists backup_day, o. split_and!; try done.
  intros o' Ht'. by eapply tier_of_unique.
Qed.

(** C1 (as amended): for every date [today] other than [date.max] and every
    list of holidays, the classifier returns exactly one outcome, the one the
    tier rule gives the day after [today]: [None] on a Sunday or a holiday,
    on a Saturday "Yearly" in the first seven days of February or August,
    "Monthly" in the first seven days of another month and "Weekly" after
    them, and "Daily" on the other weekdays. *)
Theorem classifier_follows_tier_rule today holidays :
  valid today → today ≠ max → classifies today holidays.
Proof.
  intros Hv Hne. destruct (tomorrow today Hv Hne) as (bd & Hadd & _).
  by eapply classifies_tomorrow.
Qed.

Lemma classifier_follows_tier_rule_witness :
  classifies (mkdate 2025 8 1) [mkdate 2025 12 25].
Proof.
  apply classifier_follows_tier_rule.
  - unfold valid, MINYEAR, MAXYEAR; cbn. vm_compute. intuition discriminate.
  - discriminate.
Defined.

(** C1 as stated fails on [date.max]: the day after it is not a date, the
    addition raises [OverflowError] and the classifier has no outcome. *)
Lemma classifier_overflows_at_max : ¬ classifies max [].
Proof.
  intros (bd & o & Hadd & _). rewrite no_tomorrow in Hadd. discriminate.
Qed.

(** C4: when the day after [today] is a Saturday among the first seven days
    of February or of August and is no holiday, the classifier returns
    "Yearly", not "Monthly". *)
Theorem first_saturday_of_feb_aug_is_yearly today holidays backup_day :
  add today 1 = Ok backup_day →
  weekday backup_day = 5 →
  day backup_day ≤ 7 →
  month backup_day = 2 ∨ month backup_day = 8 →
  backup_day ∉ holidays →
  calculate_backup_pool today holidays = Ok (Some "Yearly"%string)
  ∧ calculate_backup_pool today holidays ≠ Ok (Some "Monthly"%string).
Proof.
  intros Hadd Hsat Hfirst Hmonth Hhol.
  destruct (calculate_backup_pool_tier today holidays _ Hadd)
    as (o & -> & _ & Hyearly & _).
  assert (o = Some "Yearly"%string) as ->.
  { apply Hyearly; [| done..]. intros [? | ?]; [lia | done]. }
  split; [done | discriminate].
Qed.

Lemma first_saturday_of_feb_aug_is_yearly_witness :
  calculate_backup_pool (mkdate 2025 8 1) [mkdate 2025 8 4]
  = Ok (Some "Yearly"%string)
  ∧ calculate_backup_pool (mkdate 2025 8 1) [mkdate 2025 8 4]
    ≠ Ok (Some "Monthly"%string).
Proof.
  apply (first_saturday_of_feb_aug_is_yearly _ _ (mkdate 2025 8 2)).
  - reflexivity.
  - reflexivity.
  - cbn. lia.
  - right. reflexivity.
  - rewrite elem_of_cons, elem_of_nil. intros [[=] | []].
Defined.

(** C5: two lists of holidays that agree on the day after [today] get the
    same answer from the classifier (the same outcome, or the same
    exception); a holiday on another day does not change the answer. *)
Theorem classifier_reads_tomorrow_only today holidays1 holidays2 :
  (∀ backup_day, add today 1 = Ok backup_day →
                 backup_day ∈ holidays1 ↔ backup_day ∈ holidays2) →
  calculate_backup_pool today holidays1 = calculate_backup_pool today holidays2.
Proof.
  intros Hagree. unfold calculate_backup_pool.
  destruct (add today 1) as [bd | e] eqn:Hadd; [cbn | done].
  specialize (Hagree bd eq_refl). unfold is_public_holiday.
  by rewrite (bool_decide_ext _ _ Hagree).
Qed.

Lemma classifier_reads_tomorrow_only_witness :
  calculate_backup_pool (mkdate 2025 8 1) [mkdate 2025 12 25; mkdate 2025 8 2]
  = calculate_backup_pool (mkdate 2025 8 1) [mkdate 2025 8 2; mkdate 2026 1 1].
Proof.
  apply classifier_reads_tomorrow_only.
  intros bd [= <-]. rewrite !elem_of_cons, !elem_of_nil. vm_compute. tauto.
Defined.

(** C6 (as amended): for every date [d] other than [date.max], the
    classifier with no holidays returns [None] exactly when the day after
    [d] is a Sunday, one of "Weekly", "Monthly" and "Yearly" when it is a
    Saturday, and "Daily" otherwise. *)
Theorem classifier_without_holidays d :
  valid d → d ≠ max → classifies_without_holidays d.
Proof.
  intros Hv Hne. destruct (tomorrow d Hv Hne) as (bd & Hadd & _).
  exists bd. unfold calculate_backup_pool. rewrite Hadd. cbn.
  pose proof (weekday_range bd).
  classifier_cases;
    try match goal with Hin : _ ∈ [] |- _ => by apply elem_of_nil in Hin end;
    (eexists; split; [reflexivity |]); split; try done;
    split_and!; intros; try done; try lia;
    rewrite ?elem_of_cons, ?elem_of_nil; try (split; intros);
    try discriminate; try lia; tauto.
Qed.

Lemma classifier_without_holidays_witness :
  classifies_without_holidays (mkdate 2025 8 8).
Proof.
  apply classifier_without_holidays.
  - unfold valid, MINYEAR, MAXYEAR; cbn. vm_compute. intuition discriminate.
  - discriminate.
Defined.

(** C6 as stated fails on [date.max], a Friday: the classifier raises
    [OverflowError] instead of returning a Saturday tier. *)
Lemma classifier_without_holidays_overflows :
  weekday max = 4 ∧ ¬ classifies_without_holidays max.
Proof.
  split; [reflexivity |].
  intros (bd & o & Hadd & _). rewrite no_tomorrow in Hadd. discriminate.
Qed.

End get_next_tape_facts.

(** ** The skip-day generator *)
Module get_skip_days_facts.
Import datetime datetime_facts get_skip_days.

Lemma rule_A_empty_range s e H d : ¬ le s e → ¬ rule_A s e H d.
Proof. intros Hse (_ & Hsd & Hde & _). apply Hse. by etrans. Qed.

Lemma rule_B_empty_range s e H d : ¬ le s e → ¬ rule_B s e H d.
Proof. intros Hse (_ & _ & Hsd & Hde). apply Hse. by etrans. Qed.

(** One turn of the loop: the range from [cur] on is [cur] and the range
    from the next day on. *)
Lemma rule_A_step cur e H next previous_day d :
  valid cur → valid e → le cur e →
  add cur 1 = Ok next → sub cur 1 = Ok previous_day →
  rule_A cur e H d ↔
  (d = cur ∧ 0 ≤ weekday cur ≤ 4 ∧ previous_day ∈ H) ∨ rule_A next e H d.
Proof.
  intros Hc He Hce [Hn Hnext]%add_Ok_valid Hprev. unfold rule_A. split.
  - intros (Hd & Hcd & Hde & Hw & p & Hp & HpH).
    pose proof Hcd as Hord. apply le_ordinal in Hord; [| done..].
    destruct (decide (toordinal d = toordinal cur)) as [Heq | Hneq].
    + apply toordinal_inj in Heq; [| done..]. subst d. left.
      rewrite Hprev in Hp. by injection Hp as ->.
    + right. split_and!; try done; try lia; try (by exists p).
      apply le_ordinal; [done.. |]. lia.
  - intros [(-> & Hw & HpH) | (Hd & Hnd & Hde & Hw & Hp)].
    + split_and!; try done; try lia; try (by exists previous_day).
      apply le_ordinal; [done.. |]. lia.
    + split_and!; try done; try lia.
      apply le_ordinal in Hnd; [| done..]. apply le_ordinal; [done.. |]. lia.
Qed.

Lemma weekday_ltb d : (weekday d <? 5) = true ↔ 0 ≤ weekday d ≤ 4.
Proof. pose proof (weekday_range d). rewrite Z.ltb_lt. lia. Qed.

(** The loop, when no date it computes leaves [date.min .. date.max]:
    it ends, and adds the dates of rule A. *)
Lemma scan_ok fuel cur e H acc :
  valid cur → valid e → 1 < toordinal cur → toordinal e < _MAXORDINAL →
  (Z.to_nat (toordinal e + 1 - toordinal cur) ≤ fuel)%nat →
  ∃ acc', scan fuel cur e H acc = Some (Ok acc')
          ∧ ∀ d, d ∈ acc' ↔ d ∈ acc ∨ rule_A cur e H d.
Proof.
  revert cur acc. induction fuel as [| fuel IH];
    intros cur acc Hc He Hlo Hhi Hfuel; cbn [scan];
    destruct (leb cur e) eqn:Hle.
  - apply leb_le in Hle. apply le_ordinal in Hle; [lia | done..].
  - exists acc. split; [done |]. intros d. split; [tauto |].
    intros [? | []%rule_A_empty_range]; [done |].
    by rewrite <- leb_le, Hle.
  - pose proof Hle as Hord. apply leb_le in Hle.
    apply leb_le in Hord. apply le_ordinal in Hord; [| done..].
    pose proof (toordinal_bounds cur Hc).
    destruct (sub_in_range cur 1) as (p & Hp & _); [lia |].
    destruct (add_in_range cur 1) as (next & Hnext & Hn & Hnord); [lia |].
    rewrite Hp, Hnext.
    edestruct (IH next) as (acc' & -> & Hacc'); [done | done | lia | done | lia |].
    exists acc'. split; [done |]. intros d.
    rewrite Hacc', (rule_A_step cur e H next p) by done.
    destruct (weekday cur <? 5) eqn:Hw;
      [apply weekday_ltb in Hw | apply not_true_iff_false in Hw;
                                  rewrite weekday_ltb in Hw];
      [case_bool_decide |]; set_solver.
  - exists acc. split; [done |]. intros d. split; [tauto |].
    intros [? | []%rule_A_empty_range]; [done |].
    by rewrite <- leb_le, Hle.
Qed.

(** The loop when the range starts on [date.min] or ends on [date.max]: the
    day before the first, or the day after the last, raises. *)
Lemma scan_overflow fuel cur e H acc :
  valid cur → valid e → le cur e →
  toordinal cur = 1 ∨ toordinal e = _MAXORDINAL →
  (Z.to_nat (toordinal e + 1 - toordinal cur) ≤ fuel)%nat →
  scan fuel cur e H acc = Some (Raise OverflowError).
Proof.
  revert cur acc. induction fuel as [| fuel IH];
    intros cur acc Hc He Hle Hedge Hfuel; cbn [scan];
    pose proof Hle as Hord; apply le_ordinal in Hord; try done;
    apply leb_le in Hle; rewrite Hle; [lia |].
  pose proof (toordinal_bounds cur Hc). pose proof (toordinal_bounds e He).
  destruct (sub cur 1) as [p | []] eqn:Hp; [| done].
  apply sub_Ok_valid in Hp as [Hp Hpord]. pose proof (toordinal_bounds p Hp).
  destruct (add cur 1) as [next | []] eqn:Hnext; [| done].
  apply add_Ok_valid in Hnext as [Hn Hnord].
  pose proof (toordinal_bounds next Hn).
  apply IH; [done | done | | lia | lia].
  apply le_ordinal; [done.. |]. lia.
Qed.

(** The [for] loop adds the dates of rule B. *)
Lemma friday_holidays_spec s e H acc d :
  d ∈ friday_holidays s e H acc ↔ d ∈ acc ∨ rule_B s e H d.
Proof.
  unfold friday_holidays, rule_B. rewrite <- (elem_of_elements H d).
  generalize (elements H). intros l. revert acc.
  induction l as [| h l IH]; intros acc; cbn [foldl].
  - rewrite elem_of_nil. tauto.
  - rewrite IH, elem_of_cons.
    destruct (Z.eqb_spec (weekday h) 4) as [Hw | Hw].
    + destruct (geb h s) eqn:Hs, (leb h e) eqn:He; cbn [andb];
        rewrite ?elem_of_union, ?elem_of_singleton;
        (split; [intros [[-> | ?] | ?] || intros [? | ?]
                | intros [? | ([-> | ?] & ?)]]);
        try tauto.
      * right. split; [by left |]. by rewrite <- geb_le, <- leb_le.
      * destruct_and?. rewrite <- leb_le in *. congruence.
      * destruct_and?. rewrite <- geb_le in *. congruence.
      * destruct_and?. rewrite <- geb_le in *. congruence.
    + split; [tauto |]. intros [? | ([-> | ?] & ?)]; tauto.
Qed.

Lemma sorted_spec (dates : gset date) :
  Sorted le (sorted dates) ∧ NoDup (sorted dates)
  ∧ ∀ d, d ∈ sorted dates ↔ d ∈ dates.
Proof.
  unfold sorted. split_and!.
  - apply (Sorted_merge_sort le).
  - rewrite merge_sort_Permutation. apply NoDup_elements.
  - intros d. by rewrite merge_sort_Permutation, elem_of_elements.
Qed.

Lemma sorted_empty : sorted ∅ = [].
Proof. unfold sorted. by rewrite elements_empty. Qed.

Lemma skip_days_from s e H valid_dates :
  (∀ d, d ∈ valid_dates ↔ rule_A s e H d) →
  skip_days s e H (sorted (friday_holidays s e H valid_dates)).
Proof.
  intros Hscan. destruct (sorted_spec (friday_holidays s e H valid_dates))
    as (Hsorted & Hnodup & Hin).
  split_and!; try done. intros d.
  by rewrite Hin, friday_holidays_spec, Hscan.
Qed.

(** An empty range: the loop does not run, whatever the fuel. *)
Lemma scan_empty_range fuel s e H acc :
  ¬ le s e → scan fuel s e H acc = Some (Ok acc).
Proof.
  rewrite <- leb_le. intros Hle%not_true_is_false.
  destruct fuel; cbn [scan]; by rewrite Hle.
Qed.

(** [main] on a range that keeps the loop inside [date.min .. date.max]. *)
Lemma main_generates s e H :
  valid s → valid e → (le s e → s ≠ min ∧ e ≠ max) → generates s e H.
Proof.
  intros Hs He Hrange. unfold generates, main.
  destruct (decide (le s e)) as [Hle | Hle].
  - destruct (Hrange Hle) as [Hmin%after_min Hmax%before_max]; [| done..].
    apply le_ordinal in Hle; [| done..].
    destruct (scan_ok (S (Z.to_nat (toordinal e - toordinal s))) s e H ∅)
      as (acc & Hscan & Hacc); [done | done | lia | lia | lia |].
    rewrite Hscan. eexists. split; [done |].
    apply skip_days_from. intros d. rewrite Hacc. set_solver.
  - rewrite scan_empty_range by done. eexists. split; [done |].
    apply skip_days_from. intros d. split; [set_solver |]. by intros []%rule_A_empty_range.
Qed.

(** [main] on a range that starts on [date.min] or ends on [date.max]. *)
Lemma main_overflow s e H :
  valid s → valid e → le s e → s = min ∨ e = max →
  main s e H = Some (Raise OverflowError).
Proof.
  intros Hs He Hle Hedge. unfold main. rewrite scan_overflow; try done.
  - destruct Hedge as [-> | ->]; [by left | by right].
  - apply le_ordinal in Hle; [| done..]. lia.
Qed.

(** What [main] does on every range. *)
Lemma main_cases s e H :
  valid s → valid e →
  (le s e ∧ (s = min ∨ e = max) ∧ main s e H = Some (Raise OverflowError))
  ∨ ((le s e → s ≠ min ∧ e ≠ max) ∧ generates s e H).
Proof.
  intros Hs He.
  destruct (decide (le s e ∧ (s = min ∨ e = max))) as [[Hle Hedge] | Hin].
  - left. split_and!; try done. by apply main_overflow.
  - right. assert (le s e → s ≠ min ∧ e ≠ max) as Hrange.
    { intros Hle. split; intros ->; apply Hin; tauto. }
    split; [done |]. by apply main_generates.
Qed.

Lemma singleton_list (h : date) l :
  NoDup l → (∀ d, d ∈ l ↔ d = h) → l = [h].
Proof.
  intros Hnd Hin. destruct l as [| a l].
  { assert (h ∈ []) as []%elem_of_nil. by apply Hin. }
  assert (a = h) as ->. { apply Hin. by left. }
  destruct l as [| b l]; [done |].
  assert (b = h) as ->. { apply Hin. right. by left. }
  apply NoDup_cons in Hnd as [[] _]. by left.
Qed.

(** One holiday, a Friday: that Friday is the only skip day.  The day after
    it is a Saturday, which rule A leaves out, and no later day follows a
    holiday. *)
Lemma main_single_friday_holiday s e h :
  valid s → valid e → s ≠ min → e ≠ max → valid h → weekday h = 4 →
  le s h → le h e →
  main s e {[h]} = Some (Ok [h]).
Proof.
  intros Hs He Hmin Hmax Hh Hfri Hsh Hhe.
  destruct (main_generates s e {[h]}) as (days & -> & _ & Hnd & Hin);
    [done.. |].
  do 2 f_equal. apply singleton_list; [done |]. intros d. rewrite Hin.
  unfold rule_A, rule_B. split.
  - intros [(_ & _ & _ & Hw & p & [_ Hp]%sub_Ok_valid & ->%elem_of_singleton)
           | (?%elem_of_singleton & _)]; [| done].
    unfold weekday in *. replace (toordinal d) with (toordinal h + 1) in Hw by lia.
    exfalso. Z.div_mod_to_equations; lia.
  - intros ->. right. by rewrite elem_of_singleton.
Qed.

(** C2 (as amended): for every range that is empty, or starts after
    [date.min] and ends before [date.max], [main] returns the dates of rule A
    and rule B together, ascending and without repeats; every Friday holiday
    of the range is among them. *)
Theorem generator_returns_skip_days s e H :
  valid s → valid e → (le s e → s ≠ min ∧ e ≠ max) →
  ∃ days, main s e H = Some (Ok days)
          ∧ skip_days s e H days
          ∧ ∀ h, h ∈ H → weekday h = 4 → le s h → le h e → h ∈ days.
Proof.
  intros Hs He Hrange.
  destruct (main_generates s e H) as (days & Hmain & Hskip); [done.. |].
  exists days. split_and!; try done.
  intros h HhH Hfri Hsh Hhe. destruct Hskip as (_ & _ & Hin).
  apply Hin. by right.
Qed.

Lemma generator_returns_skip_days_witness :
  ∃ days, main (mkdate 2025 12 24) (mkdate 2025 12 27) {[mkdate 2025 12 25]}
          = Some (Ok days)
          ∧ skip_days (mkdate 2025 12 24) (mkdate 2025 12 27)
              {[mkdate 2025 12 25]} days
          ∧ ∀ h, h ∈ ({[mkdate 2025 12 25]} : gset date) → weekday h = 4 →
                 le (mkdate 2025 12 24) h → le h (mkdate 2025 12 27) →
                 h ∈ days.
Proof.
  apply generator_returns_skip_days.
  - unfold valid, MINYEAR, MAXYEAR; cbn. vm_compute. intuition discriminate.
  - unfold valid, MINYEAR, MAXYEAR; cbn. vm_compute. intuition discriminate.
  - intros _. split; discriminate.
Defined.

(** C2 as stated fails on a range that starts on [date.min] or ends on
    [date.max]: the day before the first date, or the day after the last,
    is not a date, and [main] raises [OverflowError]. *)
Lemma generator_overflows_at_the_ends :
  ¬ generates min (mkdate 1 1 7) ∅ ∧ ¬ generates (mkdate 9999 12 25) max ∅.
Proof.
  split; intros (days & Hmain & _); vm_compute in Hmain; discriminate.
Qed.

(** C3 (as amended): with the one holiday 2025-11-28, a Friday, and a range
    around it, the result is 2025-11-28 alone, from rule B.  Rule A adds
    nothing: the day after the holiday is a Saturday, and 2025-12-01 follows
    a Sunday that is no holiday, so it is not in the result. *)
Theorem friday_holiday_scenario s e :
  valid s → valid e → s ≠ min → e ≠ max →
  le s (mkdate 2025 11 28) → le (mkdate 2025 11 28) e →
  main s e {[mkdate 2025 11 28]} = Some (Ok [mkdate 2025 11 28])
  ∧ mkdate 2025 12 1 ∉ [mkdate 2025 11 28].
Proof.
  intros Hs He Hmin Hmax Hsh Hhe. split.
  - apply main_single_friday_holiday;
      first [ done
            | by (unfold valid, MINYEAR, MAXYEAR; cbn; vm_compute;
                  intuition discriminate) ].
  - rewrite elem_of_cons, elem_of_nil. intros [[=] | []].
Qed.

Lemma friday_holiday_scenario_witness :
  main (mkdate 2025 11 24) (mkdate 2025 12 5) {[mkdate 2025 11 28]}
  = Some (Ok [mkdate 2025 11 28])
  ∧ mkdate 2025 12 1 ∉ [mkdate 2025 11 28].
Proof.
  apply friday_holiday_scenario;
    first [ discriminate
          | by (unfold valid, MINYEAR, MAXYEAR; cbn; vm_compute;
                intuition discriminate) ].
Defined.

(** C3 as stated fails: on the range 2025-11-24 .. 2025-12-05 the result
    does not contain 2025-12-01. *)
Lemma monday_after_friday_holiday_not_skipped :
  ¬ ∃ days,
      main (mkdate 2025 11 24) (mkdate 2025 12 5) {[mkdate 2025 11 28]}
      = Some (Ok days)
      ∧ mkdate 2025 11 28 ∈ days ∧ mkdate 2025 12 1 ∈ days.
Proof.
  intros (days & Hmain & _ & Hmon). vm_compute in Hmain.
  injection Hmain as <-.
  apply elem_of_cons in Hmon as [[=] | []%elem_of_nil].
Qed.

(** C7: when the range ends before it starts, [main] returns normally, with
    no date at all; it raises nothing. *)
Theorem empty_range_gives_no_skip_days s e H :
  lt e s →
  main s e H = Some (Ok []) ∧ ∀ exc, main s e H ≠ Some (Raise exc).
Proof.
  intros Hlt%lt_not_le.
  assert (main s e H = Some (Ok [])) as ->; [| by split].
  unfold main. rewrite scan_empty_range by done.
  replace (friday_holidays s e H ∅) with (∅ : gset date);
    [by rewrite sorted_empty |].
  symmetry. apply leibniz_equiv, elem_of_equiv_empty. intros d.
  rewrite friday_holidays_spec. intros [[]%not_elem_of_empty | Hb].
  by apply rule_B_empty_range in Hb.
Qed.

Lemma empty_range_gives_no_skip_days_witness :
  main (mkdate 2025 12 27) (mkdate 2025 12 24) {[mkdate 2025 12 26]}
  = Some (Ok [])
  ∧ ∀ exc, main (mkdate 2025 12 27) (mkdate 2025 12 24) {[mkdate 2025 12 26]}
           ≠ Some (Raise exc).
Proof. apply empty_range_gives_no_skip_days. reflexivity. Defined.

(** C9: [main] always comes to an end, and every date it returns lies in the
    range and falls on a day from Monday to Friday, never on a Saturday or a
    Sunday. *)
Theorem skip_days_are_weekdays_in_range s e H :
  valid s → valid e →
  main s e H ≠ None
  ∧ ∀ days d, main s e H = Some (Ok days) → d ∈ days →
              le s d ∧ le d e ∧ 0 ≤ weekday d ≤ 4
              ∧ weekday d ≠ 5 ∧ weekday d ≠ 6.
Proof.
  intros Hs He.
  destruct (main_cases s e H Hs He)
    as [(_ & _ & ->) | (_ & days' & -> & _ & _ & Hin)]; [done |].
  split; [done |]. intros days d [= <-] Hd.
  apply Hin in Hd as [(_ & ? & ? & ? & _) | (_ & ? & ? & ?)];
    split_and!; try done; lia.
Qed.

Lemma skip_days_are_weekdays_in_range_witness :
  main (mkdate 2025 12 24) (mkdate 2025 12 27) {[mkdate 2025 12 25]} ≠ None
  ∧ ∀ days d,
      main (mkdate 2025 12 24) (mkdate 2025 12 27) {[mkdate 2025 12 25]}
      = Some (Ok days) → d ∈ days →
      le (mkdate 2025 12 24) d ∧ le d (mkdate 2025 12 27)
      ∧ 0 ≤ weekday d ≤ 4 ∧ weekday d ≠ 5 ∧ weekday d ≠ 6.
Proof.
  apply skip_days_are_weekdays_in_range;
    unfold valid, MINYEAR, MAXYEAR; cbn; vm_compute; intuition discriminate.
Defined.

End get_skip_days_facts.

(** ** The tape-label extractor *)
Module re_facts.
Import re.

Section matcher_facts.
Variable unicode_decimal : codepoint → bool.
Local Abbreviation digit := (get_next_tape.digit unicode_decimal).
Local Abbreviation no_digit_ahead :=
  (get_next_tape.no_digit_ahead unicode_decimal).

Lemma matches_literal_app lit text k :
  matches unicode_decimal (literal lit) (lit ++ text) k = k text.
Proof.
  induction lit as [| c lit IH]; [done |]. cbn. by rewrite bool_decide_true.
Qed.

Lemma matches_literal_Some lit text k rest :
  matches unicode_decimal (literal lit) text k = Some rest →
  ∃ text', text = lit ++ text' ∧ k text' = Some rest.
Proof.
  revert text. induction lit as [| c lit IH]; intros text; cbn.
  - intros Hk. by exists text.
  - destruct text as [| c' text]; [done |]. case_bool_decide; [| done].
    subst c'. intros (text' & -> & Hk)%IH. by exists text'.
Qed.

Lemma matches_literal_None lit text k :
  (∀ text', text ≠ lit ++ text') →
  matches unicode_decimal (literal lit) text k = None.
Proof.
  intros Hno.
  destruct (matches unicode_decimal (literal lit) text k) as [rest |] eqn:Hm;
    [| done].
  apply matches_literal_Some in Hm as (text' & -> & _). by destruct (Hno text').
Qed.

(** Every text is a run of digits and a rest that starts with none. *)
Lemma digit_run text :
  ∃ digits rest, text = digits ++ rest ∧ Forall digit digits
                 ∧ no_digit_ahead rest.
Proof.
  induction text as [| c text (digits & rest & -> & Hd & Hr)].
  - by exists [], [].
  - destruct (unicode_decimal c) eqn:Hc.
    + exists (c :: digits), rest. split_and!; [done | by constructor | done].
    + exists [], (c :: digits ++ rest). split_and!; [done | done |].
      cbn. unfold get_next_tape.digit. by rewrite Hc.
Qed.

(** The greedy repetition takes the whole run. *)
Lemma repeat_run least digits rest :
  Forall digit digits → no_digit_ahead rest →
  repeat unicode_decimal CATEGORY_DIGIT least (digits ++ rest) Some
  = if decide (least ≤ length digits)%nat then Some rest else None.
Proof.
  intros Hd Hr. revert least.
  induction Hd as [| c digits Hc Hd IH]; intros least; cbn.
  - destruct rest as [| c rest]; cbn.
    + destruct least; by repeat case_decide; try lia.
    + cbn in Hr. apply not_true_is_false in Hr. rewrite Hr.
      destruct least; by repeat case_decide; try lia.
  - rewrite Hc, IH. destruct least; cbn; repeat case_decide; try done; lia.
Qed.
End matcher_facts.
End re_facts.

Module tape_label_facts.
Import re re_facts get_next_tape.

Section extractor.
Variable unicode_decimal : codepoint → bool.
Local Abbreviation digit := (get_next_tape.digit unicode_decimal).
Local Abbreviation no_digit_ahead :=
  (get_next_tape.no_digit_ahead unicode_decimal).
Local Abbreviation label_and_rest :=
  (get_next_tape.label_and_rest unicode_decimal).
Local Abbreviation label_starts := (get_next_tape.label_starts unicode_decimal).
Local Abbreviation first_label := (get_next_tape.first_label unicode_decimal).
Local Abbreviation no_label := (get_next_tape.no_label unicode_decimal).

Local Abbreviation here := (get_next_tape.here unicode_decimal).

Lemma tier_Some name text rest :
  matches unicode_decimal (tier name) text Some = Some rest →
  ∃ digits, text = str_of name ++ digits ++ rest ∧ digits ≠ []
            ∧ Forall digit digits ∧ no_digit_ahead rest.
Proof.
  unfold tier. cbn [matches].
  intros (text' & -> & Hrep)%matches_literal_Some.
  destruct (digit_run unicode_decimal text') as (digits & rest' & -> & Hd & Hr).
  rewrite repeat_run in Hrep by done. case_decide; [| done].
  injection Hrep as ->. exists digits. split_and!; try done.
  intros ->. cbn in *. lia.
Qed.

Lemma tier_intro name digits rest :
  digits ≠ [] → Forall digit digits → no_digit_ahead rest →
  matches unicode_decimal (tier name) (str_of name ++ digits ++ rest) Some
  = Some rest.
Proof.
  intros Hne Hd Hr. unfold tier. cbn [matches].
  rewrite matches_literal_app, repeat_run by done.
  case_decide; [done |]. destruct digits; [done | cbn in *; lia].
Qed.

Lemma tier_other name text :
  (∀ text', text ≠ str_of name ++ text') →
  matches unicode_decimal (tier name) text Some = None.
Proof. intros Hno. unfold tier. cbn [matches]. by apply matches_literal_None. Qed.

Lemma tier_names_cases name :
  name ∈ tier_names ↔
  name = str_of "Daily" ∨ name = str_of "Weekly"
  ∨ name = str_of "Monthly" ∨ name = str_of "Yearly".
Proof.
  unfold tier_names. rewrite !fmap_cons, !elem_of_cons, fmap_nil, elem_of_nil.
  tauto.
Qed.

Lemma here_Some text rest :
  here text = Some rest ↔ ∃ label, label_and_rest text label rest.
Proof.
  unfold get_next_tape.here, tape_label_pattern, get_next_tape.label_and_rest. split.
  - cbn [matches]. intros Hm.
    repeat match type of Hm with
      | match ?m with _ => _ end = _ => destruct m eqn:? 
      end;
      simplify_eq;
      match goal with
      | Ht : matches _ (tier ?n) _ _ = Some _ |- _ =>
          apply tier_Some in Ht as (digits & -> & ? & ? & ?);
          exists (str_of n ++ digits), (str_of n), digits
      end;
      (split_and!; [by rewrite <- app_assoc | done | | done..]);
      apply tier_names_cases; tauto.
  - intros (label & name & digits & -> & -> & Hname & Hne & Hd & Hr).
    rewrite <- app_assoc. cbn [matches].
    apply tier_names_cases in Hname as [-> | [-> | [-> | ->]]];
      repeat first
        [ rewrite tier_intro by done
        | rewrite tier_other by (intros text'; vm_compute; discriminate) ];
      done.
Qed.

Lemma label_starts_run text :
  label_starts text ↔ ∃ label rest, label_and_rest text label rest.
Proof.
  unfold get_next_tape.label_starts, get_next_tape.label_and_rest. split.
  - intros (name & c & rest & -> & Hname & Hc).
    destruct (digit_run unicode_decimal rest) as (digits & rest' & -> & Hd & Hr).
    exists (name ++ c :: digits), rest', name, (c :: digits).
    split_and!; try done; [by rewrite <- app_assoc | by constructor].
  - intros (label & rest & name & digits & -> & -> & Hname & Hne & Hd & _).
    destruct digits as [| c digits]; [done |].
    exists name, c, (digits ++ rest).
    split_and!; [by rewrite <- app_assoc | done | by inversion Hd].
Qed.

Lemma here_None text : here text = None ↔ ¬ label_starts text.
Proof.
  rewrite label_starts_run. split.
  - intros Hnone (label & rest & Hl).
    assert (here text = Some rest) as Hsome by (apply here_Some; eauto).
    congruence.
  - intros Hno. destruct (here text) as [rest |] eqn:Hh; [| done].
    apply here_Some in Hh as [label Hl]. destruct Hno; eauto.
Qed.

Lemma label_and_rest_cons text label rest :
  label_and_rest text label rest → ∃ c label', label = c :: label'.
Proof.
  intros (name & digits & _ & -> & _ & Hne & _).
  destruct name; [destruct digits; [done |] |]; eauto.
Qed.

Lemma search_here text rest :
  here text = Some rest →
  search unicode_decimal tape_label_pattern text
  = Some (take (length text - length rest) text).
Proof. unfold get_next_tape.here. intros Hh. destruct text; cbn [search]; by rewrite Hh. Qed.

Lemma search_skip c text :
  here (c :: text) = None →
  search unicode_decimal tape_label_pattern (c :: text)
  = search unicode_decimal tape_label_pattern text.
Proof. unfold get_next_tape.here. intros Hh. cbn [search]. by rewrite Hh. Qed.

Lemma search_nil :
  here [] = None → search unicode_decimal tape_label_pattern [] = None.
Proof. unfold get_next_tape.here. intros Hh. cbn [search]. by rewrite Hh. Qed.

Lemma search_label label rest :
  label_and_rest (label ++ rest) label rest →
  search unicode_decimal tape_label_pattern (label ++ rest) = Some label.
Proof.
  intros Hl. rewrite (search_here _ rest) by (apply here_Some; eauto).
  by rewrite length_app, Nat.add_sub, take_app_length.
Qed.

(** [search] returns the label at the first position that has one. *)
Lemma search_Some line label :
  search unicode_decimal tape_label_pattern line = Some label
  ↔ first_label line label.
Proof.
  unfold get_next_tape.first_label. split.
  - revert label. induction line as [| c line IH]; intros label.
    + destruct (here []) as [rest |] eqn:Hh; [| by rewrite search_nil].
      apply here_Some in Hh as [l Hl].
      destruct (label_and_rest_cons _ _ _ Hl) as (c & l' & ->).
      by destruct Hl as (_ & _ & ? & _).
    + destruct (here (c :: line)) as [rest |] eqn:Hh.
      * apply here_Some in Hh as [l Hl].
        pose proof Hl as (_ & _ & Heq & _). rewrite Heq in Hl |- *.
        rewrite search_label by done. intros [= <-].
        exists [], rest. split_and!; [done | done |].
        intros before' text _ Hlen. cbn in Hlen. lia.
      * rewrite search_skip by done.
        intros (before & rest & -> & Hl & Hfirst)%IH.
        exists (c :: before), rest. split_and!; [done | done |].
        intros [| c' before'] text Heq Hlen.
        -- cbn in Heq. subst text. by apply here_None.
        -- injection Heq as -> Heq. apply (Hfirst before' text Heq).
           cbn in Hlen. lia.
  - intros (before & rest & -> & Hl & Hfirst).
    induction before as [| c before IH]; cbn [app];
      [by apply search_label |].
    rewrite search_skip.
    + apply IH. intros before' text Heq Hlen.
      apply (Hfirst (c :: before')); [cbn [app]; by f_equal | cbn; lia].
    + apply here_None, (Hfirst []); [done | cbn; lia].
Qed.

Lemma search_None line :
  search unicode_decimal tape_label_pattern line = None ↔ no_label line.
Proof.
  unfold get_next_tape.no_label. split.
  - induction line as [| c line IH].
    + intros _ before text Heq.
      symmetry in Heq. apply app_eq_nil in Heq as [_ ->].
      apply here_None. destruct (here []) as [rest |] eqn:Hh; [| done].
      apply here_Some in Hh as [l Hl].
      destruct (label_and_rest_cons _ _ _ Hl) as (c & l' & ->).
      by destruct Hl as (_ & _ & ? & _).
    + destruct (here (c :: line)) eqn:Hh;
        [by erewrite search_here | rewrite search_skip by done].
      intros Hs [| c' before] text Heq.
      * cbn in Heq. subst text. by apply here_None.
      * injection Heq as -> Heq. by apply (IH Hs before).
  - intros Hno. induction line as [| c line IH].
    + by apply search_nil, here_None, (Hno []).
    + rewrite search_skip by by apply here_None, (Hno []).
      apply IH. intros before text ->. by apply (Hno (c :: before)).
Qed.

Lemma extract_tape_label_search tape_info :
  extract_tape_label unicode_decimal tape_info
  = search unicode_decimal tape_label_pattern tape_info.
Proof. unfold extract_tape_label. by destruct search. Qed.

Lemma no_tier_name_no_label line : no_tier_name line → no_label line.
Proof.
  intros Hno before text -> (name & c & rest & -> & Hname & _).
  by apply (Hno before name (c :: rest)).
Qed.

(** A label is found wherever it stands, whatever comes before it. *)
Lemma extract_tape_label_anywhere before text :
  label_starts text →
  is_Some (extract_tape_label unicode_decimal (before ++ text)).
Proof.
  intros Hl. rewrite extract_tape_label_search.
  destruct (search _ _ _) eqn:Hs; [done |].
  apply search_None in Hs. by destruct (Hs before text).
Qed.

(** The ASCII digits are decimal digits of Unicode. *)
Hypothesis ascii_digits : ∀ c, (48 ≤ c ≤ 57)%N → unicode_decimal c = true.

(** C8: the extractor returns the leftmost label of the line, a tier name
    with the digits that follow it, and nothing when the line has no
    label; it returns "Daily013" on "The next Volume to be used is
    Daily013", and nothing on a line that has no tier name. *)
Theorem extract_tape_label_leftmost :
  (∀ line label, extract_tape_label unicode_decimal line = Some label
                 ↔ first_label line label)
  ∧ (∀ line, extract_tape_label unicode_decimal line = None ↔ no_label line)
  ∧ extract_tape_label unicode_decimal
      (str_of "The next Volume to be used is Daily013")
    = Some (str_of "Daily013")
  ∧ (∀ line, no_tier_name line →
             extract_tape_label unicode_decimal line = None).
Proof.
  split_and!.
  - intros line label. rewrite extract_tape_label_search. apply search_Some.
  - intros line. rewrite extract_tape_label_search. apply search_None.
  - vm_compute. rewrite !ascii_digits by lia. reflexivity.
  - intros line Hno. rewrite extract_tape_label_search.
    by apply search_None, no_tier_name_no_label.
Qed.

(** C10: the pattern is not anchored at a word boundary.  On a line with
    "BiWeekly005" the extractor returns "Weekly005", and it finds a label
    after any text at all. *)
Theorem extract_tape_label_inside_a_word :
  extract_tape_label unicode_decimal
    (str_of "The next Volume to be used is BiWeekly005")
  = Some (str_of "Weekly005")
  ∧ ∀ before text, label_starts text →
                   is_Some (extract_tape_label unicode_decimal (before ++ text)).
Proof.
  split.
  - vm_compute. rewrite !ascii_digits by lia. reflexivity.
  - apply extract_tape_label_anywhere.
Qed.
End extractor.

Lemma ascii_decimal_digits c : (48 ≤ c ≤ 57)%N → ascii_decimal c = true.
Proof.
  intros [Hlo Hhi]. unfold ascii_decimal.
  apply andb_true_iff. split; by apply N.leb_le.
Qed.

Lemma extract_tape_label_leftmost_witness :
  (∀ line label, extract_tape_label ascii_decimal line = Some label
                 ↔ first_label ascii_decimal line label)
  ∧ (∀ line, extract_tape_label ascii_decimal line = None
             ↔ no_label ascii_decimal line)
  ∧ extract_tape_label ascii_decimal
      (str_of "The next Volume to be used is Daily013")
    = Some (str_of "Daily013")
  ∧ (∀ line, no_tier_name line → extract_tape_label ascii_decimal line = None).
Proof. apply extract_tape_label_leftmost, ascii_decimal_digits. Defined.

Lemma extract_tape_label_inside_a_word_witness :
  extract_tape_label ascii_decimal
    (str_of "The next Volume to be used is BiWeekly005")
  = Some (str_of "Weekly005")
  ∧ ∀ before text, label_starts ascii_decimal text →
                   is_Some (extract_tape_label ascii_decimal (before ++ text)).
Proof. apply extract_tape_label_inside_a_word, ascii_decimal_digits. Defined.
End tape_label_facts.

(** * Further properties *)

(** ** The first Saturday of a month *)
Module first_saturday_facts.
Import datetime datetime_facts get_next_tape get_next_tape_facts.

Lemma toordinal_day y m k :
  toordinal (mkdate y m k) = toordinal (mkdate y m 0) + k.
Proof. unfold toordinal, _ymd2ord; cbn. lia. Qed.

Lemma first_week_valid y m k :
  1 ≤ y ≤ 9999 → 1 ≤ m ≤ 12 → 1 ≤ k ≤ 7 → valid (mkdate y m k).
Proof.
  intros Hy Hm Hk. unfold valid, MINYEAR, MAXYEAR, _days_in_month; cbn.
  split_and!; try lia.
  destruct (_is_leap y); each_month m Hm; cbn; eval_tables; lia.
Qed.

(** Two Saturdays among the first seven days of one month are one day. *)
Lemma first_saturday_unique a b :
  year a = year b → month a = month b →
  weekday a = 5 → weekday b = 5 →
  1 ≤ day a ≤ 7 → 1 ≤ day b ≤ 7 → a = b.
Proof.
  destruct a as [y m k], b as [y' m' k']; cbn. intros <- <-.
  unfold weekday. rewrite (toordinal_day y m k), (toordinal_day y m k').
  generalize (toordinal (mkdate y m 0)). intros base Ha Hb Hk Hk'.
  f_equal. Z.div_mod_to_equations; lia.
Qed.

Lemma first_saturday_exists y m :
  1 ≤ y ≤ 9999 → 1 ≤ m ≤ 12 →
  ∃ k, 1 ≤ k ≤ 7 ∧ weekday (mkdate y m k) = 5.
Proof.
  intros Hy Hm. exists ((- 2 - toordinal (mkdate y m 0)) mod 7 + 1).
  unfold weekday.
  rewrite (toordinal_day y m ((- 2 - toordinal (mkdate y m 0)) mod 7 + 1)).
  generalize (toordinal (mkdate y m 0)). intros base.
  Z.div_mod_to_equations; lia.
Qed.

(** The classifier answers "Monthly" or "Yearly" exactly on a Saturday
    among the first seven days of a month that is no holiday. *)
Lemma monthly_or_yearly_iff today holidays backup_day :
  add today 1 = Ok backup_day →
  monthly_or_yearly (calculate_backup_pool today holidays)
  ↔ weekday backup_day = 5 ∧ day backup_day ≤ 7 ∧ backup_day ∉ holidays.
Proof.
  intros Hadd. unfold monthly_or_yearly, calculate_backup_pool.
  rewrite Hadd. cbn.
  repeat match goal with
    | |- context [?a =? ?b] => destruct (Z.eqb_spec a b)
    | |- context [?a <=? ?b] => destruct (Z.leb_spec a b)
    | |- context [is_public_holiday ?d ?H] =>
        unfold is_public_holiday; destruct (bool_decide_reflect (d ∈ H))
    | |- context [bool_decide (?m ∈ [2; 8])] =>
        destruct (bool_decide_reflect (m ∈ [2; 8]))
    end; cbn [orb andb];
    (split; [intros [[=] | [=]] | intros (? & ? & ?)]);
    first [ lia | done | by split_and! | by left | by right ].
Qed.



(** X2: a holiday on the first Saturday of a month takes the "Monthly" or
    "Yearly" backup of that month away: no backup day of the month gets
    either answer, the classifier does not move it to a later Saturday. *)
Theorem holiday_on_first_saturday_cancels today holidays backup_day saturday :
  valid saturday → weekday saturday = 5 → day saturday ≤ 7 →
  saturday ∈ holidays →
  add today 1 = Ok backup_day →
  year backup_day = year saturday → month backup_day = month saturday →
  ¬ monthly_or_yearly (calculate_backup_pool today holidays).
Proof.
  intros (_ & _ & Hday) Hsat Hfirst Hhol Hadd Hyear Hmonth.
  rewrite (monthly_or_yearly_iff _ _ _ Hadd). intros (Hsat' & Hfirst' & Hno).
  apply add_Ok_valid in Hadd as [(_ & _ & Hday') _].
  assert (backup_day = saturday) as ->; [| done].
  apply first_saturday_unique; try done; lia.
Qed.

Lemma holiday_on_first_saturday_cancels_witness :
  ¬ monthly_or_yearly
      (calculate_backup_pool (mkdate 2025 9 12) [mkdate 2025 9 6]).
Proof.
  apply (holiday_on_first_saturday_cancels _ _ (mkdate 2025 9 13)
           (mkdate 2025 9 6)).
  - unfold valid, MINYEAR, MAXYEAR; cbn. vm_compute. intuition discriminate.
  - reflexivity.
  - cbn. lia.
  - by left.
  - reflexivity.
  - reflexivity.
  - reflexivity.
Defined.

End first_saturday_facts.

(** ** The label of a label, and the mail of [main] *)
Module notification_facts.
Import datetime datetime_facts re re_facts get_next_tape get_next_tape_facts
  tape_label_facts.

(** X3: the extractor gives a label back unchanged: what it returns for a
    line, it returns for that label alone. *)
Theorem extract_tape_label_idempotent unicode_decimal line label :
  extract_tape_label unicode_decimal line = Some label →
  extract_tape_label unicode_decimal label = Some label.
Proof.
  rewrite !extract_tape_label_search.
  intros (before & rest & _ & (name & digits & _ & Hlabel & Hname & Hne & Hd & _)
          & _)%search_Some.
  rewrite <- (app_nil_r label) at 1. apply search_label.
  exists name, digits. by split_and!.
Qed.

Lemma extract_tape_label_idempotent_witness :
  extract_tape_label ascii_decimal (str_of "Weekly005") = Some (str_of "Weekly005").
Proof.
  apply (extract_tape_label_idempotent ascii_decimal
           (str_of "The next Volume to be used is BiWeekly005 or Daily1")).
  reflexivity.
Defined.

Lemma pool_not_empty today holidays pool :
  calculate_backup_pool today holidays = Ok (Some pool) → pool ≠ ""%string.
Proof.
  unfold calculate_backup_pool. destruct (add today 1) as [bd |]; [cbn | done].
  repeat match goal with
    | |- context [if ?c then _ else _] => destruct c
    end; by intros [= <-].
Qed.



(** X5: when [main] sends a mail, it has asked the catalog once before,
    for the pool the classifier gave, the answer was not empty, and the
    body of the mail names that pool and carries the answer; it sends no
    second mail. *)
Theorem main_mail unicode_decimal today holidays tool formatted_date
    actions subject message_body :
  main unicode_decimal today holidays tool formatted_date = Ok actions →
  SendEmail subject message_body ∈ actions →
  ∃ pool tape_info,
    calculate_backup_pool today holidays = Ok (Some pool)
    ∧ tool pool = Some tape_info ∧ tape_info ≠ []
    ∧ actions = [Query pool; SendEmail subject message_body]
    ∧ message_body = str_of "The next tape for pool " ++ str_of pool
                     ++ str_of ": " ++ tape_info
    ∧ subject
      = match extract_tape_label unicode_decimal tape_info with
        | Some label =>
            str_of "Bacula next tape " ++ label ++ str_of " ("
            ++ formatted_date ++ str_of ")"
        | None => str_of "Bacula next tape (" ++ formatted_date ++ str_of ")"
        end.
Proof.
  unfold main.
  destruct (calculate_backup_pool today holidays) as [[pool |] |] eqn:Hcall;
    cbn [mbind result_bind]; [| by intros [= <-] ?%elem_of_nil | done].
  destruct pool as [| a pool]; [by intros [= <-] ?%elem_of_nil |].
  set (p := String a pool).
  destruct (tool p) as [[| c cs] |] eqn:Htool; intros [= <-] Hin;
    repeat (apply elem_of_cons in Hin as [[=] | Hin]);
    try by apply elem_of_nil in Hin.
  subst. exists p, (c :: cs). split_and!; try done.
  destruct (extract_tape_label _ _) as [[| l ls] |] eqn:Hlabel; try done.
  rewrite extract_tape_label_search in Hlabel.
  apply search_Some in Hlabel as (? & ? & _ & Hl & _).
  by apply label_and_rest_cons in Hl as (? & ? & ?).
Qed.

Lemma main_mail_witness :
  ∃ pool tape_info,
    calculate_backup_pool (mkdate 2025 8 1) [] = Ok (Some pool)
    ∧ (λ _ : string, Some (str_of "next is Yearly002")) pool = Some tape_info
    ∧ tape_info ≠ []
    ∧ [Query "Yearly";
       SendEmail (str_of "Bacula next tape Yearly002 (Fri Aug  1)")
         (str_of "The next tape for pool Yearly: next is Yearly002")]
      = [Query pool;
         SendEmail (str_of "Bacula next tape Yearly002 (Fri Aug  1)")
           (str_of "The next tape for pool Yearly: next is Yearly002")]
    ∧ str_of "The next tape for pool Yearly: next is Yearly002"
      = str_of "The next tape for pool " ++ str_of pool ++ str_of ": "
        ++ tape_info
    ∧ str_of "Bacula next tape Yearly002 (Fri Aug  1)"
      = match extract_tape_label ascii_decimal tape_info with
        | Some label =>
            str_of "Bacula next tape " ++ label ++ str_of " ("
            ++ str_of "Fri Aug  1" ++ str_of ")"
        | None => str_of "Bacula next tape (" ++ str_of "Fri Aug  1" ++ str_of ")"
        end.
Proof.
  apply (main_mail ascii_decimal (mkdate 2025 8 1) []
           (λ _, Some (str_of "next is Yearly002")) (str_of "Fri Aug  1")
           [Query "Yearly";
            SendEmail (str_of "Bacula next tape Yearly002 (Fri Aug  1)")
              (str_of "The next tape for pool Yearly: next is Yearly002")]).
  - reflexivity.
  - right. left.
Defined.

End notification_facts.

(** ** More on the skip-day generator *)
Module skip_day_laws.
Import datetime datetime_facts get_skip_days get_skip_days_facts.

Lemma le_antisym x y : le x y → le y x → x = y.
Proof.
  unfold le. rewrite (cmp_antisym x y). intros Hxy Hyx. apply cmp_eq.
  by destruct (_cmp x y).
Qed.

(** Two lists with the properties of the output and the same dates are the
    same list. *)
Lemma sorted_nodup_unique (l1 l2 : list date) :
  Sorted le l1 → NoDup l1 → Sorted le l2 → NoDup l2 →
  (∀ d, d ∈ l1 ↔ d ∈ l2) → l1 = l2.
Proof.
  intros Hs1 Hn1 Hs2 Hn2 Hin.
  apply (Sorted_unique_strong le); try done.
  - intros. by apply le_antisym.
  - by apply NoDup_Permutation.
Qed.

(** [main] returns the one list that is the skip days of the range. *)
Lemma main_is s e H days :
  valid s → valid e → (le s e → s ≠ min ∧ e ≠ max) →
  skip_days s e H days → main s e H = Some (Ok days).
Proof.
  intros Hs He Hrange (Hsorted & Hnodup & Hin).
  destruct (main_generates s e H Hs He Hrange)
    as (days' & -> & Hsorted' & Hnodup' & Hin').
  do 2 f_equal. apply sorted_nodup_unique; try done.
  intros d. by rewrite Hin, Hin'.
Qed.

(** When [main] returns, the range kept the loop inside the dates, and the
    list is the skip days. *)
Lemma main_Ok s e H days :
  valid s → valid e → main s e H = Some (Ok days) →
  (le s e → s ≠ min ∧ e ≠ max) ∧ skip_days s e H days.
Proof.
  intros Hs He Hmain.
  destruct (main_cases s e H Hs He)
    as [(_ & _ & Hraise) | (Hrange & days' & Hmain' & Hskip)]; [congruence |].
  by assert (days' = days) as <- by congruence.
Qed.

(** X6: without holidays there are no skip days. *)
Theorem no_holidays_no_skip_days s e :
  valid s → valid e → (le s e → s ≠ min ∧ e ≠ max) →
  main s e ∅ = Some (Ok []).
Proof.
  intros Hs He Hrange. apply main_is; try done.
  split_and!; [constructor | constructor |]. intros d. split.
  - by intros ?%elem_of_nil.
  - intros [(_ & _ & _ & _ & p & _ & []%not_elem_of_empty)
           | ([]%not_elem_of_empty & _)].
Qed.

Lemma no_holidays_no_skip_days_witness :
  main (mkdate 2025 1 1) (mkdate 2025 12 31) ∅ = Some (Ok []).
Proof.
  apply no_holidays_no_skip_days;
    first [ by (unfold valid, MINYEAR, MAXYEAR; cbn; vm_compute;
                intuition discriminate)
          | intros _; split; discriminate ].
Defined.

(** X7: more holidays never take a skip day away. *)
Theorem more_holidays_more_skip_days s e (H H' : gset date) days :
  valid s → valid e → H ⊆ H' →
  main s e H = Some (Ok days) →
  ∃ days', main s e H' = Some (Ok days') ∧ days ⊆ days'.
Proof.
  intros Hs He Hsub [Hrange (_ & _ & Hin)]%main_Ok; [| done..].
  destruct (main_generates s e H' Hs He Hrange) as (days' & -> & _ & _ & Hin').
  exists days'. split; [done |]. intros d. rewrite Hin, Hin'.
  unfold rule_A, rule_B. set_solver.
Qed.

Lemma more_holidays_more_skip_days_witness :
  ∃ days',
    main (mkdate 2025 12 24) (mkdate 2026 1 5)
      {[mkdate 2025 12 25; mkdate 2026 1 1]}
    = Some (Ok days')
    ∧ [mkdate 2025 12 26] ⊆ days'.
Proof.
  apply (more_holidays_more_skip_days _ _ {[mkdate 2025 12 25]}).
  - unfold valid, MINYEAR, MAXYEAR; cbn. vm_compute. intuition discriminate.
  - unfold valid, MINYEAR, MAXYEAR; cbn. vm_compute. intuition discriminate.
  - apply union_subseteq_l.
  - reflexivity.
Defined.

Lemma rule_A_split s m m' e H d :
  valid s → valid m → valid e → add m 1 = Ok m' →
  le s m → le m' e →
  rule_A s e H d ↔ rule_A s m H d ∨ rule_A m' e H d.
Proof.
  intros Hs Hm He [Hm' Hord]%add_Ok_valid Hsm Hme. unfold rule_A.
  apply le_ordinal in Hsm, Hme; try done. split.
  - intros (Hd & Hsd & Hde & Hw & Hp).
    apply le_ordinal in Hsd, Hde; try done.
    destruct (decide (toordinal d ≤ toordinal m)); [left | right];
      split_and!; try done; try lia; apply le_ordinal; try done; lia.
  - intros [(Hd & Hsd & Hdm & Hw & Hp) | (Hd & Hmd & Hde & Hw & Hp)];
      split_and!; try done; try lia; apply le_ordinal; try done.
    + apply le_ordinal in Hdm; try done. lia.
    + apply le_ordinal in Hmd; try done. lia.
Qed.

Lemma rule_B_split s m m' e H d :
  valid s → valid m → valid e → set_Forall valid H → add m 1 = Ok m' →
  le s m → le m' e →
  rule_B s e H d ↔ rule_B s m H d ∨ rule_B m' e H d.
Proof.
  intros Hs Hm He HH [Hm' Hord]%add_Ok_valid Hsm Hme. unfold rule_B.
  apply le_ordinal in Hsm, Hme; try done. split.
  - intros (HdH & Hw & Hsd & Hde). pose proof (HH d HdH) as Hd.
    apply le_ordinal in Hsd, Hde; try done.
    destruct (decide (toordinal d ≤ toordinal m)); [left | right];
      split_and!; try done; apply le_ordinal; try done; lia.
  - intros [(HdH & Hw & Hsd & Hdm) | (HdH & Hw & Hmd & Hde)];
      pose proof (HH d HdH) as Hd;
      split_and!; try done; apply le_ordinal; try done.
    + apply le_ordinal in Hdm; try done. lia.
    + apply le_ordinal in Hmd; try done. lia.
Qed.

Lemma skip_day_valid s e H days d :
  set_Forall valid H → skip_days s e H days → d ∈ days → valid d.
Proof.
  intros HH (_ & _ & Hin) [(? & _) | (HdH & _)]%Hin; [done |]. by apply HH.
Qed.

Lemma skip_day_in_range s e H days d :
  skip_days s e H days → d ∈ days → le s d ∧ le d e.
Proof. intros (_ & _ & Hin) [(_ & ? & ? & _) | (_ & _ & ? & ?)]%Hin; done. Qed.

(** X8: the skip days of a range are those of its first part followed by
    those of the rest: handling a range in two runs gives the same dates
    in the same order. *)
Theorem skip_days_of_adjacent_ranges s m m' e H :
  valid s → valid m → valid e → set_Forall valid H →
  s ≠ min → e ≠ max →
  le s m → add m 1 = Ok m' → le m' e →
  ∃ days1 days2,
    main s m H = Some (Ok days1) ∧ main m' e H = Some (Ok days2)
    ∧ main s e H = Some (Ok (days1 ++ days2)).
Proof.
  intros Hs Hm He HH Hmin Hmax Hsm Hadd Hme.
  pose proof Hadd as [Hm' Hord]%add_Ok_valid.
  pose proof (toordinal_bounds m Hm). pose proof (toordinal_bounds m' Hm').
  assert (m ≠ max) by (apply before_max; [done | lia]).
  assert (m' ≠ min) by (apply after_min; [done | lia]).
  destruct (main_generates s m H) as (days1 & Hmain1 & Hskip1); [done.. |].
  destruct (main_generates m' e H) as (days2 & Hmain2 & Hskip2); [done.. |].
  exists days1, days2. split_and!; [done | done |].
  assert (∀ d1 d2, d1 ∈ days1 → d2 ∈ days2 → toordinal d1 < toordinal d2)
    as Hbefore.
  { intros d1 d2 Hd1 Hd2.
    pose proof (skip_day_valid _ _ _ _ _ HH Hskip1 Hd1).
    pose proof (skip_day_valid _ _ _ _ _ HH Hskip2 Hd2).
    apply (skip_day_in_range _ _ _ _ _ Hskip1) in Hd1 as [_ Hd1].
    apply (skip_day_in_range _ _ _ _ _ Hskip2) in Hd2 as [Hd2 _].
    apply le_ordinal in Hd1, Hd2; try done. lia. }
  apply main_is; [done | done | done |].
  destruct Hskip1 as (Hsorted1 & Hnodup1 & Hin1).
  destruct Hskip2 as (Hsorted2 & Hnodup2 & Hin2).
  assert (∀ d, d ∈ days1 → valid d) as Hv1.
  { intros d Hd. eapply skip_day_valid; [done | | done]. by split_and!. }
  assert (∀ d, d ∈ days2 → valid d) as Hv2.
  { intros d Hd. eapply skip_day_valid; [done | | done]. by split_and!. }
  split_and!.
  - apply StronglySorted_Sorted, StronglySorted_app_2.
    + intros d1 d2 Hd1 Hd2. apply le_ordinal; [by apply Hv1 | by apply Hv2 |].
      specialize (Hbefore d1 d2 Hd1 Hd2). lia.
    + by apply (Sorted_StronglySorted le).
    + by apply (Sorted_StronglySorted le).
  - apply NoDup_app. split_and!; [done | | done].
    intros d Hd1 Hd2. specialize (Hbefore d d Hd1 Hd2). lia.
  - intros d. rewrite elem_of_app, Hin1, Hin2.
    rewrite (rule_A_split s m m' e H d), (rule_B_split s m m' e H d) by done.
    tauto.
Qed.

Lemma skip_days_of_adjacent_ranges_witness :
  ∃ days1 days2,
    main (mkdate 2025 12 24) (mkdate 2025 12 31)
      {[mkdate 2025 12 25; mkdate 2026 1 1]} = Some (Ok days1)
    ∧ main (mkdate 2026 1 1) (mkdate 2026 1 5)
        {[mkdate 2025 12 25; mkdate 2026 1 1]} = Some (Ok days2)
    ∧ main (mkdate 2025 12 24) (mkdate 2026 1 5)
        {[mkdate 2025 12 25; mkdate 2026 1 1]} = Some (Ok (days1 ++ days2)).
Proof.
  apply skip_days_of_adjacent_ranges;
    first [ discriminate | reflexivity
          | by (unfold valid, MINYEAR, MAXYEAR; cbn; vm_compute;
                intuition discriminate)
          | idtac ].
  intros h [->%elem_of_singleton | ->%elem_of_singleton]%elem_of_union;
    unfold valid, MINYEAR, MAXYEAR; cbn; vm_compute; intuition discriminate.
Defined.

(** The holiday that accounts for a skip day: itself when it is a Friday
    holiday, and else the day before it. *)
Lemma skip_day_holiday s e H d :
  rule_A s e H d ∨ rule_B s e H d → holiday_of H d ∈ H.
Proof.
  unfold holiday_of. intros Hrule. case_decide as Hfri; [tauto |].
  destruct Hrule as [(_ & _ & _ & _ & p & -> & HpH) | (? & ? & _)]; tauto.
Qed.

Lemma holiday_of_inj s e H d1 d2 :
  rule_A s e H d1 ∨ rule_B s e H d1 →
  rule_A s e H d2 ∨ rule_B s e H d2 →
  holiday_of H d1 = holiday_of H d2 → d1 = d2.
Proof.
  assert (∀ a b, a ∈ H → weekday a = 4 → rule_A s e H b →
                 ¬ (b ∈ H ∧ weekday b = 4) → holiday_of H b = a → False)
    as Hmix.
  { intros a b HaH Ha (Hb & _ & _ & Hw & p & Hp & HpH) Hno.
    unfold holiday_of. rewrite decide_False, Hp by done. intros ->.
    apply sub_Ok_valid in Hp as [_ Hp]. unfold weekday in *.
    Z.div_mod_to_equations; lia. }
  intros H1 H2. unfold holiday_of at 1.
  destruct (decide (d1 ∈ H ∧ weekday d1 = 4)) as [[? ?] | Hno1].
  - destruct (decide (d2 ∈ H ∧ weekday d2 = 4)) as [[? ?] | Hno2].
    + unfold holiday_of. by rewrite decide_True.
    + intros Heq. destruct H2 as [HA | (? & ? & _)]; [| tauto].
      by destruct (Hmix d1 d2).
  - destruct H1 as [HA1 | (? & ? & _)]; [| tauto].
    destruct (decide (d2 ∈ H ∧ weekday d2 = 4)) as [[? ?] | Hno2].
    + intros Heq. destruct (Hmix d2 d1); try done.
      unfold holiday_of at 1. rewrite decide_False by done.
      unfold holiday_of in Heq. by rewrite decide_True in Heq.
    + destruct H2 as [HA2 | (? & ? & _)]; [| tauto].
      destruct HA1 as (Hv1 & _ & _ & _ & p1 & Hp1 & _).
      destruct HA2 as (Hv2 & _ & _ & _ & p2 & Hp2 & _).
      unfold holiday_of. rewrite decide_False, Hp1, Hp2 by done. intros ->.
      apply sub_Ok_valid in Hp1 as [_ Hp1]. apply sub_Ok_valid in Hp2 as [_ Hp2].
      apply toordinal_inj; try done. lia.
Qed.

(** X9: there are never more skip days than holidays. *)
Theorem no_more_skip_days_than_holidays s e (H : gset date) days :
  valid s → valid e → main s e H = Some (Ok days) →
  (length days ≤ size H)%nat.
Proof.
  intros Hs He [_ (_ & Hnodup & Hin)]%main_Ok; [| done..].
  rewrite <- (length_fmap (holiday_of H) days).
  unfold size, set_size; cbn. apply submseteq_length, NoDup_submseteq.
  - apply NoDup_fmap_2_strong; [| done].
    intros d1 d2 Hd1%Hin Hd2%Hin. by apply (holiday_of_inj s e).
  - intros h (d & -> & Hd%Hin)%list_elem_of_fmap.
    apply elem_of_elements. by apply (skip_day_holiday s e).
Qed.

Lemma no_more_skip_days_than_holidays_witness :
  (length [mkdate 2025 12 26]
   ≤ size ({[mkdate 2025 12 25]} : gset date))%nat.
Proof.
  apply (no_more_skip_days_than_holidays (mkdate 2025 12 24) (mkdate 2025 12 27)).
  - unfold valid, MINYEAR, MAXYEAR; cbn. vm_compute. intuition discriminate.
  - unfold valid, MINYEAR, MAXYEAR; cbn. vm_compute. intuition discriminate.
  - reflexivity.
Defined.

Lemma tomorrow_weekday h n :
  add h 1 = Ok n → weekday n = (weekday h + 1) mod 7.
Proof.
  intros [_ Hord]%add_Ok_valid. unfold weekday. rewrite Hord.
  Z.div_mod_to_equations; lia.
Qed.

Lemma rule_A_one_holiday s e h n d :
  valid h → add h 1 = Ok n → le s n → le n e →
  rule_A s e {[h]} d ↔ d = n ∧ 0 ≤ weekday n ≤ 4.
Proof.
  intros Hh [Hn Hord]%add_Ok_valid Hsn Hne. unfold rule_A. split.
  - intros (Hd & _ & _ & Hw & p & [Hp Hpord]%sub_Ok_valid & ->%elem_of_singleton).
    assert (d = n) as -> by (apply toordinal_inj; [done | done | lia]). done.
  - intros [-> Hw]. split_and!; try done; try lia.
    pose proof (toordinal_bounds h Hh).
    destruct (sub_in_range n 1) as (p & Hp & Hpv & Hpord); [lia |].
    exists p. split; [done |]. apply elem_of_singleton.
    apply toordinal_inj; [done | done | lia].
Qed.

Lemma rule_B_one_holiday s e h d :
  le s h → le h e → rule_B s e {[h]} d ↔ d = h ∧ weekday h = 4.
Proof.
  intros Hsh Hhe. unfold rule_B. rewrite elem_of_singleton. split.
  - by intros (-> & ? & _).
  - by intros [-> ?].
Qed.

(** X10: with one holiday [h] inside the range (and the day after it too),
    the skip days are [h] alone when [h] is a Friday, none when [h] is a
    Saturday, and the day after [h] alone otherwise. *)
Theorem skip_days_of_one_holiday s e h n :
  valid s → valid e → valid h → s ≠ min → e ≠ max →
  le s h → add h 1 = Ok n → le n e →
  main s e {[h]}
  = Some (Ok (if weekday h =? 4 then [h]
              else if weekday h =? 5 then [] else [n])).
Proof.
  intros Hs He Hh Hmin Hmax Hsh Hadd Hne.
  pose proof Hadd as [Hn Hord]%add_Ok_valid.
  assert (le h n) as Hhn by (apply le_ordinal; [done.. | lia]).
  assert (le s n) as Hsn by by etrans.
  assert (le h e) as Hhe by by etrans.
  pose proof (tomorrow_weekday h n Hadd) as Hwn.
  pose proof (weekday_range h) as Hwh.
  apply main_is; [done.. |]. unfold skip_days.
  setoid_rewrite (rule_A_one_holiday s e h n); [| done..].
  setoid_rewrite (rule_B_one_holiday s e h); [| done..].
  destruct (Z.eqb_spec (weekday h) 4) as [Hfri | Hfri];
    [| destruct (Z.eqb_spec (weekday h) 5) as [Hsat | Hsat]].
  - split_and!; [repeat constructor | apply NoDup_singleton |].
    intros d. rewrite list_elem_of_singleton.
    split; [tauto |]. intros [[_ Hw] | [? _]]; [| done].
    exfalso. Z.div_mod_to_equations; lia.
  - split_and!; [constructor | constructor |].
    intros d. rewrite elem_of_nil.
    split; [done |]. intros [[_ Hw] | [_ ?]]; [| done].
    exfalso. Z.div_mod_to_equations; lia.
  - split_and!; [repeat constructor | apply NoDup_singleton |].
    intros d. rewrite list_elem_of_singleton.
    split; [| tauto]. intros ->. left. split; [done |].
    Z.div_mod_to_equations; lia.
Qed.

Lemma skip_days_of_one_holiday_witness :
  main (mkdate 2025 4 1) (mkdate 2025 4 30) {[mkdate 2025 4 26]}
  = Some (Ok (if weekday (mkdate 2025 4 26) =? 4 then [mkdate 2025 4 26]
              else if weekday (mkdate 2025 4 26) =? 5 then []
                   else [mkdate 2025 4 27])).
Proof.
  apply skip_days_of_one_holiday;
    first [ discriminate | reflexivity
          | by (unfold valid, MINYEAR, MAXYEAR; cbn; vm_compute;
                intuition discriminate) ].
Defined.

End skip_day_laws.

(** ** The holidays and the date range of get_skip_days.py *)
Module skip_days_script_facts.
Import datetime datetime_facts get_skip_days get_skip_days_facts skip_day_laws.

(** X11: [fetch_public_holidays] returns the dates of the VEVENT components
    that are not before [today], and only them; the time of day of a
    datetime is dropped; a failed download gives no holiday. *)
Theorem fetch_public_holidays_spec response today d :
  d ∈ fetch_public_holidays response today
  ↔ ∃ walk c, response = Some walk ∧ c ∈ walk
              ∧ component_name c = "VEVENT"%string
              ∧ event_date c = d ∧ le today d.
Proof.
  unfold fetch_public_holidays. destruct response as [walk |].
  - assert (∀ acc : gset date,
              d ∈ foldl (λ holidays c,
                           if String.eqb (component_name c) "VEVENT" then
                             if geb (event_date c) today
                             then {[event_date c]} ∪ holidays
                             else holidays
                           else holidays) acc walk
              ↔ d ∈ acc ∨ ∃ c, c ∈ walk ∧ component_name c = "VEVENT"%string
                               ∧ event_date c = d ∧ le today d) as Hfold.
    { induction walk as [| c walk IH]; intros acc; cbn [foldl].
      - split; [tauto |]. by intros [? | (c & []%elem_of_nil & _)].
      - rewrite IH. setoid_rewrite elem_of_cons.
        destruct (String.eqb_spec (component_name c) "VEVENT") as [Hname | Hname];
          [destruct (geb (event_date c) today) eqn:Hge |].
        + apply geb_le in Hge. rewrite elem_of_union, elem_of_singleton.
          split; [| naive_solver].
          intros [[-> | ?] | (c' & ? & ?)]; [right | by left | naive_solver].
          exists c. by split_and!; [left | ..].
        + split; [naive_solver |].
          intros [? | (c' & [-> | ?] & ? & <- & Hle)]; [by left | | naive_solver].
          apply geb_le in Hle. congruence.
        + split; [naive_solver |].
          intros [? | (c' & [-> | ?] & ? & ?)]; [by left | done | naive_solver]. }
    rewrite Hfold. split.
    + intros [[]%not_elem_of_empty | (c & ?)]. by exists walk, c.
    + intros (walk' & c & [= <-] & ?). right. by exists c.
  - split; [by intros ?%not_elem_of_empty | by intros (? & ? & [=] & _)].
Qed.

Lemma gtb_false_le x m : gtb x m = false → le x m.
Proof. unfold gtb, le. by destruct (_cmp x m). Qed.

Lemma gtb_true_le x m : gtb x m = true → le m x.
Proof.
  unfold gtb, le. rewrite (cmp_antisym x m). by destruct (_cmp x m).
Qed.

Lemma le_refl x : le x x.
Proof. destruct (total le x x); done. Qed.

(** [max] gives a date of the set that none exceeds. *)
Lemma max_date_Some (H : gset date) m :
  max_date H = Some m → m ∈ H ∧ ∀ h, h ∈ H → le h m.
Proof.
  unfold max_date. setoid_rewrite <- (elem_of_elements H).
  destruct (elements H) as [| d ds]; [done |]. intros [= <-].
  assert (∀ m0, let m := foldl (λ m x, if gtb x m then x else m) m0 ds in
                (m = m0 ∨ m ∈ ds) ∧ le m0 m ∧ ∀ h, h ∈ ds → le h m) as Hfold.
  { induction ds as [| x ds IH]; intros m0; cbn [foldl].
    - split_and!; [by left | apply le_refl | by intros ? ?%elem_of_nil].
    - destruct (IH (if gtb x m0 then x else m0)) as (Hm & Hle & Hmax).
      destruct (gtb x m0) eqn:Hgt.
      + apply gtb_true_le in Hgt. split_and!.
        * right. destruct Hm as [-> | ?]; [by left | by right].
        * by etrans.
        * intros h [-> | ?]%elem_of_cons; [done | by apply Hmax].
      + apply gtb_false_le in Hgt. split_and!.
        * destruct Hm as [-> | ?]; [by left | by right; right].
        * done.
        * intros h [-> | ?]%elem_of_cons; [by etrans | by apply Hmax]. }
  destruct (Hfold d) as (Hm & Hle & Hmax). split.
  - destruct Hm as [-> | ?]; [by left | by right].
  - intros h [-> | ?]%elem_of_cons; [done | by apply Hmax].
Qed.

Lemma max_date_None (H : gset date) : max_date H = None ↔ H = ∅.
Proof.
  unfold max_date. split.
  - destruct (elements H) eqn:He; [| done]. intros _.
    by apply elements_empty_inv, leibniz_equiv in He.
  - intros ->. by rewrite elements_empty.
Qed.

(** The output of the script, from that of the two loops. *)
Lemma main_from_sources_main response custom today start_date end_date :
  main_from_sources response custom today start_date end_date
  = match date_range today start_date end_date
            (fetch_public_holidays response today ∪ custom) with
    | Raise e => Some (Raise e)
    | Ok (s, e) =>
        match main s e (fetch_public_holidays response today ∪ custom) with
        | None => None
        | Some (Raise x) => Some (Raise x)
        | Some (Ok []) => Some (Ok None)
        | Some (Ok days) => Some (Ok (Some days))
        end
    end.
Proof.
  unfold main_from_sources, main.
  destruct (date_range _ _ _ _) as [[s e] |]; [| done].
  destruct (scan _ _ _ _ _) as [[vd |] |]; [| done..].
  destruct (sorted_spec (friday_holidays s e
              (fetch_public_holidays response today ∪ custom) vd))
    as (_ & _ & Hin).
  case_decide as Hempty.
  - by rewrite Hempty, sorted_empty.
  - destruct (sorted _) as [| d days] eqn:Hsorted; [| done].
    destruct Hempty. apply leibniz_equiv, elem_of_equiv_empty. intros d.
    rewrite <- Hin. apply not_elem_of_nil.
Qed.

Lemma main_from_sources_written response custom today start_date end_date days :
  main_from_sources response custom today start_date end_date
  = Some (Ok (Some days)) →
  ∃ s e, date_range today start_date end_date
           (fetch_public_holidays response today ∪ custom) = Ok (s, e)
         ∧ main s e (fetch_public_holidays response today ∪ custom)
           = Some (Ok days)
         ∧ days ≠ [].
Proof.
  rewrite main_from_sources_main.
  destruct (date_range _ _ _ _) as [[s e] |] eqn:Hrange; [| done].
  destruct (main _ _ _) as [[[| d l] |] |] eqn:Hmain; try done.
  intros [= <-]. by exists s, e.
Qed.

Lemma date_range_valid today start_date end_date (H : gset date) s e :
  valid (default today start_date) →
  (∀ e', end_date = Some e' → valid e') →
  set_Forall valid H →
  date_range today start_date end_date H = Ok (s, e) →
  s = default today start_date ∧ valid s ∧ valid e.
Proof.
  intros Hs He HH. unfold date_range. destruct end_date as [e' |].
  - intros [= <- <-]. split_and!; [done | done | by apply He].
  - destruct (max_date H) as [m |] eqn:Hmax.
    + intros [= <- <-]. split_and!; [done | done |].
      by apply HH, max_date_Some.
    + destruct (add _ 365) as [e' |] eqn:Hadd; [| done]. intros [= <- <-].
      split_and!; [done | done |]. by apply add_Ok_valid in Hadd as [? _].
Qed.

Lemma no_skip_days_without_holidays s e days :
  valid s → valid e → main s e ∅ = Some (Ok days) → days = [].
Proof.
  intros Hs He Hmain.
  pose proof (main_Ok _ _ _ _ Hs He Hmain) as [Hrange _].
  pose proof (no_holidays_no_skip_days s e Hs He Hrange). congruence.
Qed.

(** X12: when no end date is given, the range ends on the latest holiday:
    no date that is written comes after it, so the day after the latest
    holiday is never written. *)
Theorem nothing_after_the_latest_holiday response custom today start_date days :
  valid (default today start_date) →
  set_Forall valid (fetch_public_holidays response today ∪ custom) →
  main_from_sources response custom today start_date None
  = Some (Ok (Some days)) →
  ∃ latest,
    latest ∈ fetch_public_holidays response today ∪ custom
    ∧ (∀ h, h ∈ fetch_public_holidays response today ∪ custom → le h latest)
    ∧ ∀ d, d ∈ days → le d latest.
Proof.
  intros Hs HH (s & e & Hrange & Hmain & Hne)%main_from_sources_written.
  pose proof Hrange as (-> & _ & He)%date_range_valid; [| done..].
  unfold date_range in Hrange.
  destruct (max_date _) as [m |] eqn:Hmax.
  - injection Hrange as <-. apply max_date_Some in Hmax as [Hm Hlatest].
    exists m. split_and!; [done | done |]. intros d Hd.
    apply main_Ok in Hmain as [_ Hskip]; [| done..].
    by apply (skip_day_in_range _ _ _ _ _ Hskip) in Hd as [_ ?].
  - apply max_date_None in Hmax. rewrite Hmax in Hmain.
    by apply no_skip_days_without_holidays in Hmain.
Qed.

Lemma nothing_after_the_latest_holiday_witness :
  ∃ latest,
    latest ∈ fetch_public_holidays
               (Some [{| component_name := "VEVENT";
                         DTSTART := DATE (mkdate 2026 1 1) |}])
               (mkdate 2025 12 1) ∪ {[mkdate 2025 12 25]}
    ∧ (∀ h, h ∈ fetch_public_holidays
                  (Some [{| component_name := "VEVENT";
                            DTSTART := DATE (mkdate 2026 1 1) |}])
                  (mkdate 2025 12 1) ∪ {[mkdate 2025 12 25]} →
            le h latest)
    ∧ ∀ d, d ∈ [mkdate 2025 12 26] → le d latest.
Proof.
  apply (nothing_after_the_latest_holiday _ _ _ None).
  - unfold valid, MINYEAR, MAXYEAR; cbn. vm_compute. intuition discriminate.
  - intros h [(? & c & [= <-] & ->%list_elem_of_singleton & _ & <- & _)
               %fetch_public_holidays_spec
             | ->%elem_of_singleton]%elem_of_union;
      unfold valid, MINYEAR, MAXYEAR; cbn; vm_compute; intuition discriminate.
  - reflexivity.
Defined.

(** X13: with no holiday from either source and no end date, the range is
    the 365 days after the start; nothing is written, unless the range
    touches [date.min] or [date.max], when [OverflowError] is raised. *)
Theorem no_holidays_no_output response custom today start_date :
  fetch_public_holidays response today ∪ custom = ∅ →
  valid (default today start_date) →
  main_from_sources response custom today start_date None
  = if decide (default today start_date = min
               ∨ _MAXORDINAL ≤ toordinal (default today start_date) + 365)
    then Some (Raise OverflowError)
    else Some (Ok None).
Proof.
  intros HH Hs. rewrite main_from_sources_main, HH. unfold date_range.
  assert (max_date ∅ = None) as -> by by apply max_date_None.
  set (s := default today start_date) in *.
  pose proof (toordinal_bounds s Hs).
  destruct (add s 365) as [e | []] eqn:Hadd; cbn [mbind result_bind].
  - apply add_Ok_valid in Hadd as [He Hord].
    pose proof (toordinal_bounds e He).
    assert (le s e) as Hle by (apply le_ordinal; [done.. | lia]).
    case_decide as Hedge.
    + rewrite main_overflow; try done.
      destruct Hedge as [? | ?]; [by left | right].
      apply toordinal_inj; [done | apply valid_max |].
      rewrite toordinal_max. lia.
    + rewrite no_holidays_no_skip_days; try done.
      intros _. split; [tauto |]. intros ->. rewrite toordinal_max in Hord.
      apply Hedge. right. lia.
  - apply add_Raise in Hadd. rewrite decide_True; [done |]. right. lia.
Qed.

Lemma no_holidays_no_output_witness :
  main_from_sources None ∅ (mkdate 2025 12 1) None None
  = if decide (default (mkdate 2025 12 1) None = min
               ∨ _MAXORDINAL ≤ toordinal (default (mkdate 2025 12 1) None) + 365)
    then Some (Raise OverflowError)
    else Some (Ok None).
Proof.
  apply no_holidays_no_output.
  - reflexivity.
  - unfold valid, MINYEAR, MAXYEAR; cbn. vm_compute. intuition discriminate.
Defined.

(** X14: a public holiday before [today] is dropped when the holidays are
    fetched, so it makes no skip day: a date written that is not after
    [today] is a Friday holiday itself, or follows a custom holiday. *)
Theorem past_public_holidays_make_no_skip_day response custom today
    start_date end_date days d :
  valid today → valid (default today start_date) →
  (∀ e, end_date = Some e → valid e) →
  set_Forall valid (fetch_public_holidays response today ∪ custom) →
  main_from_sources response custom today start_date end_date
  = Some (Ok (Some days)) →
  d ∈ days → le d today →
  (d ∈ fetch_public_holidays response today ∪ custom ∧ weekday d = 4)
  ∨ ∃ previous_day, sub d 1 = Ok previous_day ∧ previous_day ∈ custom.
Proof.
  intros Ht Hs He HH (s & e & Hrange & Hmain & _)%main_from_sources_written
    Hd Hdt.
  apply date_range_valid in Hrange as (-> & _ & Hev); [| done..].
  apply main_Ok in Hmain as [_ (_ & _ & Hin)]; [| done..].
  apply Hin in Hd as [(Hdv & _ & _ & _ & p & Hp & HpH) | (? & ? & _)];
    [| by left].
  right. exists p. split; [done |].
  apply elem_of_union in HpH as [Hpub | ?]; [exfalso | done].
  apply fetch_public_holidays_spec in Hpub as (_ & _ & _ & _ & _ & _ & Htp).
  apply sub_Ok_valid in Hp as [Hpv Hpord].
  apply le_ordinal in Hdt, Htp; try done. lia.
Qed.

Lemma past_public_holidays_make_no_skip_day_witness :
  (mkdate 2025 12 1
   ∈ fetch_public_holidays
       (Some [{| component_name := "VEVENT";
                 DTSTART := DATETIME (mkdate 2025 12 25) 0 |}])
       (mkdate 2025 12 1) ∪ {[mkdate 2025 11 30]}
   ∧ weekday (mkdate 2025 12 1) = 4)
  ∨ ∃ previous_day, sub (mkdate 2025 12 1) 1 = Ok previous_day
                    ∧ previous_day ∈ ({[mkdate 2025 11 30]} : gset date).
Proof.
  apply (past_public_holidays_make_no_skip_day _ _ _ None None
           [mkdate 2025 12 1]).
  - unfold valid, MINYEAR, MAXYEAR; cbn. vm_compute. intuition discriminate.
  - unfold valid, MINYEAR, MAXYEAR; cbn. vm_compute. intuition discriminate.
  - done.
  - intros h [(? & c & [= <-] & ->%list_elem_of_singleton & _ & <- & _)
               %fetch_public_holidays_spec
             | ->%elem_of_singleton]%elem_of_union;
      unfold valid, MINYEAR, MAXYEAR; cbn; vm_compute; intuition discriminate.
  - reflexivity.
  - by left.
  - unfold le. vm_compute. discriminate.
Defined.

End skip_days_script_facts.

(** ** The skip days as the holidays of the classifier *)
Module pipeline_facts.
Import datetime datetime_facts get_next_tape get_next_tape_facts
  get_skip_days get_skip_days_facts skip_day_laws.

(** X15: with the list of skip days as its holidays, the classifier
    cancels the backup of every skip day, and that backup is always one
    that would have been "Daily": the list never takes a Saturday backup
    away. *)
Theorem skip_days_cancel_daily_backups_only s e H days today d :
  valid s → valid e →
  get_skip_days.main s e H = Some (Ok days) →
  d ∈ days → add today 1 = Ok d →
  calculate_backup_pool today days = Ok None
  ∧ calculate_backup_pool today [] = Ok (Some "Daily"%string).
Proof.
  intros Hs He [_ (_ & _ & Hin)]%main_Ok Hd Hadd; [| done..].
  assert (0 ≤ weekday d ≤ 4) as Hw.
  { apply Hin in Hd as [(_ & _ & _ & ? & _) | (_ & ? & _)]; lia. }
  split.
  - destruct (calculate_backup_pool_tier today days d Hadd)
      as (o & -> & Hnone & _).
    rewrite Hnone; [done | by right].
  - destruct (calculate_backup_pool_tier today [] d Hadd)
      as (o & -> & _ & _ & _ & _ & Hdaily).
    rewrite Hdaily; [done | | lia].
    intros [? | []%elem_of_nil]. lia.
Qed.

Lemma skip_days_cancel_daily_backups_only_witness :
  calculate_backup_pool (mkdate 2025 12 25) [mkdate 2025 12 26] = Ok None
  ∧ calculate_backup_pool (mkdate 2025 12 25) [] = Ok (Some "Daily"%string).
Proof.
  apply (skip_days_cancel_daily_backups_only (mkdate 2025 12 24)
           (mkdate 2025 12 27) {[mkdate 2025 12 25]} _ _ (mkdate 2025 12 26)).
  - unfold valid, MINYEAR, MAXYEAR; cbn. vm_compute. intuition discriminate.
  - unfold valid, MINYEAR, MAXYEAR; cbn. vm_compute. intuition discriminate.
  - reflexivity.
  - by left.
  - reflexivity.
Defined.

End pipeline_facts.
